(** * hyfetch: color profiles, custom presets and the backend launcher

    A shallow embedding of [hyfetch/presets.py], [hyfetch/models.py] and
    [hyfetch/rs.py], with the properties of the specification proved about
    it.  Python integers are [Z], Python lists are [list] indexed the Python
    way (negative indices count from the end, an index out of range raises),
    Python [str] is [string], holding the text in UTF-8 (one [ascii] per
    character for ASCII text); where the code counts or walks the characters
    of a text of any kind ([color_text]), the text is the list of its code
    points.  Python floats are the primitive binary64 floats, and a raised
    exception is the [Raise] branch of [result]. *)

From Stdlib Require Import ZArith String Ascii PrimFloat.
From stdpp Require Import base tactics option list gmap strings pretty.
From Equations Require Import Equations.

Local Open Scope Z_scope.
Set Warnings "-clear-no-such-hyp".

(** ** The Python run-time notions the sources rely on *)

Module Py.

(** The exceptions the modelled code can raise. *)
Inductive exn : Type :=
| IndexError
| ZeroDivisionError
| AssertionError
| ValueError (msg : string).

Inductive result (A : Type) : Type :=
| Ok (a : A)
| Raise (e : exn).
Arguments Ok {A} a.
Arguments Raise {A} e.

#[global] Instance result_ret : MRet result := fun A a => Ok a.
#[global] Instance result_bind : MBind result := fun A B f m =>
  match m with
  | Ok a => f a
  | Raise e => Raise e
  end.
#[global] Instance result_fmap : FMap result := fun A B f m =>
  match m with
  | Ok a => Ok (f a)
  | Raise e => Raise e
  end.

(** [a // b] and [a % b]: floor division, the remainder takes the sign of
    the divisor, and a zero divisor raises. *)
Definition floordiv (a b : Z) : result Z :=
  if decide (b = 0) then Raise ZeroDivisionError else Ok (a / b).

Definition mod_ (a b : Z) : result Z :=
  if decide (b = 0) then Raise ZeroDivisionError else Ok (a mod b).

(** [len(l)] *)
Definition len {A} (l : list A) : Z := Z.of_nat (length l).

(** The position a subscript [l[i]] denotes in a list of [n] elements. *)
Definition norm_index (n : nat) (i : Z) : result nat :=
  if decide (0 <= i < Z.of_nat n) then Ok (Z.to_nat i)
  else if decide (- Z.of_nat n <= i < 0) then Ok (Z.to_nat (Z.of_nat n + i))
  else Raise IndexError.

(** [l[i]] *)
Definition getitem {A} (l : list A) (i : Z) : result A :=
  k ← norm_index (length l) i;
  match l !! k with
  | Some x => Ok x
  | None => Raise IndexError
  end.

(** [l[i] += d] on a list of integers; the updated list is returned. *)
Definition iadd_item (l : list Z) (i : Z) (d : Z) : result (list Z) :=
  k ← norm_index (length l) i;
  match l !! k with
  | Some x => Ok (<[k := x + d]> l)
  | None => Raise IndexError
  end.

(** [[x] * n]: no element when [n <= 0]. *)
Definition repeat_list {A} (x : A) (n : Z) : list A := replicate (Z.to_nat n) x.

(** [enumerate(l)] *)
Definition enumerate {A} (l : list A) : list (Z * A) :=
  imap (fun i x => (Z.of_nat i, x)) l.

(** A [for] loop whose body updates a state and may raise. *)
Fixpoint for_each {S A} (body : S → A → result S) (l : list A) (s : S) : result S :=
  match l with
  | [] => Ok s
  | x :: l' => s' ← body s x; for_each body l' s'
  end.

(** A [dict]: the keys are distinct and keep their insertion order.
    [dict_set] is [d[k] = v]. *)
Definition dict (K V : Type) : Type := list (K * V).

Fixpoint dict_set {K V} `{EqDecision K} (d : dict K V) (k : K) (v : V) : dict K V :=
  match d with
  | [] => [(k, v)]
  | (k', v') :: d' =>
      if decide (k' = k) then (k, v) :: d' else (k', v') :: dict_set d' k v
  end.

Definition dict_keys {K V} (d : dict K V) : list K := d.*1.

(** *** Strings *)

Definition chars (s : string) : list ascii := list_ascii_of_string s.

Definition str_of_char (c : ascii) : string := String c EmptyString.

(** [len(s)] *)
Definition str_len (s : string) : Z := Z.of_nat (String.length s).

(** [s.startswith(prefix)] *)
Definition startswith (s prefix : string) : bool := String.prefix prefix s.

(** [s[1:]] *)
Definition str_tail (s : string) : string :=
  match s with
  | EmptyString => EmptyString
  | String _ s' => s'
  end.

(** [c in s] for a single character [c] *)
Definition char_in (c : ascii) (s : string) : bool :=
  bool_decide (c ∈ chars s).

(** [s.lower()] on ASCII text: the letters A-Z are changed.  ([str.lower]
    as a whole follows the Unicode tables; where the code lower-cases a
    text of any kind, the function is a parameter.) *)
Definition lower_char (c : ascii) : ascii :=
  let n := nat_of_ascii c in
  if (65 <=? n)%nat && (n <=? 90)%nat then ascii_of_nat (n + 32) else c.

Fixpoint lower (s : string) : string :=
  match s with
  | EmptyString => EmptyString
  | String c s' => String (lower_char c) (lower s')
  end.

(** [s.split(sep)] for a one-character separator *)
Fixpoint split_at (sep : ascii) (s : string) : list string :=
  match s with
  | EmptyString => [EmptyString]
  | String c s' =>
      if decide (c = sep) then EmptyString :: split_at sep s'
      else match split_at sep s' with
           | [] => [str_of_char c]
           | w :: ws => String c w :: ws
           end
  end.

(** [repr(s)]: quoted with ['] unless the string holds a ['] and no
    double quote; backslash, the quote and control characters escaped. *)
Definition squote : ascii := "039".
Definition dquote : ascii := "034".
Definition backslash : ascii := "092".

Definition hex_digit_of (n : nat) : ascii :=
  if (n <? 10)%nat then ascii_of_nat (48 + n) else ascii_of_nat (87 + n).

Definition repr_char (quote c : ascii) : string :=
  let n := nat_of_ascii c in
  if decide (c = quote ∨ c = backslash) then String backslash (str_of_char c)
  else if decide (n = 9%nat) then String backslash "t"
  else if decide (n = 10%nat) then String backslash "n"
  else if decide (n = 13%nat) then String backslash "r"
  else if (n <? 32)%nat || (n =? 127)%nat
       then String backslash
              (String "x" (String (hex_digit_of (n / 16))
                                  (str_of_char (hex_digit_of (n mod 16)))))
  else str_of_char c.

Definition repr (s : string) : string :=
  let quote := if char_in squote s && negb (char_in dquote s)
               then dquote else squote in
  String quote (String.concat "" (repr_char quote <$> chars s))
  +:+ str_of_char quote.

(** [int(s)] in base 10, on ASCII text: surrounding white space (blank,
    tab, line feed, vertical tab, form feed, carriage return) is dropped, a
    sign may come first, and single underscores may separate the digits.
    Once the digits are read, more than [INT_MAX_STR_DIGITS] of them are
    refused (the default of [sys.get_int_max_str_digits()]); then nothing
    may follow them.  The message of a refusal quotes at most 200
    characters of [repr(s)]. *)
Definition is_space (c : ascii) : bool :=
  let n := nat_of_ascii c in
  (n =? 32)%nat || ((9 <=? n)%nat && (n <=? 13)%nat).

Fixpoint lstrip (s : string) : string :=
  match s with
  | EmptyString => EmptyString
  | String c s' => if is_space c then lstrip s' else s
  end.

Definition strip (s : string) : string :=
  String.rev (lstrip (String.rev (lstrip s))).

Definition digit_value (c : ascii) : option Z :=
  let n := nat_of_ascii c in
  if (48 <=? n)%nat && (n <=? 57)%nat then Some (Z.of_nat (n - 48)) else None.

Fixpoint parse_digits (after_underscore : bool) (acc : Z) (s : string) : option Z :=
  match s with
  | EmptyString => if after_underscore then None else Some acc
  | String c s' =>
      match digit_value c with
      | Some d => parse_digits false (10 * acc + d) s'
      | None =>
          if bool_decide (c = "_"%char) && negb after_underscore
          then parse_digits true acc s'
          else None
      end
  end.

Definition INT_MAX_STR_DIGITS : nat := 4300.

(** The digits and underscores a text starts with, and what follows. *)
Fixpoint span_digits (s : string) : string * string :=
  match s with
  | EmptyString => (EmptyString, EmptyString)
  | String c s' =>
      if bool_decide (is_Some (digit_value c)) || bool_decide (c = "_"%char)
      then let '(run, rest) := span_digits s' in (String c run, rest)
      else (EmptyString, s)
  end.

Definition count_digits (s : string) : nat :=
  length (filter (fun c => is_Some (digit_value c)) (chars s)).

Definition int (s : string) : result Z :=
  let invalid :=
    ValueError ("invalid literal for int() with base 10: "
                +:+ String.substring 0 200 (repr s)) in
  let t := strip s in
  let '(negative, body) :=
    match t with
    | String "-" r => (true, r)
    | String "+" r => (false, r)
    | _ => (false, t)
    end in
  let '(run, rest) := span_digits body in
  match parse_digits true 0 run with
  | None => Raise invalid
  | Some n =>
      if (INT_MAX_STR_DIGITS <? count_digits run)%nat
      then Raise (ValueError
                    ("Exceeds the limit (" +:+ pretty INT_MAX_STR_DIGITS
                     +:+ " digits) for integer string conversion: value has "
                     +:+ pretty (count_digits run)
                     +:+ " digits; use sys.set_int_max_str_digits() to increase the limit"))
      else if bool_decide (rest = EmptyString)
      then Ok (if negative then - n else n)
      else Raise invalid
  end.

(** *** Texts as code points *)

(** An ASCII literal as a list of code points. *)
Definition text_of (s : string) : list N := N_of_ascii <$> chars s.

(** The blank, [' ']. *)
Definition SPACE : N := 32.

(** [a < b] on tuples of integers: the first position that differs
    decides, and a proper prefix is smaller. *)
Fixpoint tuple_lt (a b : list Z) : bool :=
  match a, b with
  | _, [] => false
  | [], _ :: _ => true
  | x :: a', y :: b' =>
      if x <? y then true else if y <? x then false else tuple_lt a' b'
  end.

(** Truth value of a string, and of a string that may be [None]. *)
Definition str_truthy (s : string) : bool := negb (bool_decide (s = EmptyString)).

Definition opt_truthy (x : option string) : bool :=
  match x with
  | Some s => str_truthy s
  | None => false
  end.

(** [x or y] on a string that may be [None] *)
Definition str_or (x : option string) (y : string) : string :=
  match x with
  | Some s => if str_truthy s then s else y
  | None => y
  end.

(** [assert b] *)
Definition assert (b : bool) : result unit :=
  if b then Ok () else Raise AssertionError.

End Py.
Import Py.

(** ** [presets.py]: the color profile *)

(** [remove_duplicates]: the comprehension keeps [x] when it is not yet in
    [seen], and adds it to [seen] as it does. *)
Fixpoint remove_duplicates_seen `{Countable A} (seen : gset A) (seq : list A) : list A :=
  match seq with
  | [] => []
  | x :: seq' =>
      if decide (x ∈ seen) then remove_duplicates_seen seen seq'
      else x :: remove_duplicates_seen ({[x]} ∪ seen) seq'
  end.

Definition remove_duplicates `{Countable A} (seq : list A) : list A :=
  remove_duplicates_seen ∅ seq.

(** [constants.GLOBAL_CFG], as far as [presets.py] reads it. *)
Record GlobalConfig : Type := {
  use_overlay : bool;
  light_dark : string;                        (* what [light_dark()] returns *)
  default_lightness : option string → float
}.

(** The reset sequence [ESC[39;49m]. *)
Definition RESET : list N := text_of (String "027" "[39;49m").

Section ColorProfile.

(** [presets.py] imports [RGB] from [color_util] and [GLOBAL_CFG] from
    [constants]: the color type, the methods of a color that the profile
    calls, and the configuration object are parameters. *)
Context {RGB : Type}.
Variable from_hex : string → result RGB.
Variable to_ansi : RGB → bool → list N.               (* [c.to_ansi(foreground=b)] *)
Variable rgb_lighten : RGB → float → RGB.              (* [c.lighten(multiplier)] *)
Variable rgb_set_light : RGB → float → option bool → option bool → RGB.
Variable rgb_overlay : RGB → RGB → float → RGB.        (* [c.overlay(color, alpha)] *)
Variable GLOBAL_CFG : GlobalConfig.
Variable str_lower : string → string.                  (* [s.lower()] *)

Record ColorProfile : Type := mkColorProfile {
  raw : option (list string);   (* set on the string path only *)
  colors : list RGB
}.

(** [ColorProfile.__init__].  [colors[0]] is inspected to choose between the
    hex-string path and the RGB path. *)
Definition ColorProfile_init (cs : list string + list RGB) : result ColorProfile :=
  match cs with
  | inl strs =>
      _ ← getitem strs 0;
      rgbs ← mapM from_hex strs;
      Ok {| raw := Some strs; colors := rgbs |}
  | inr rgbs =>
      _ ← getitem rgbs 0;
      Ok {| raw := None; colors := rgbs |}
  end.

(** [ColorProfile.with_weights] *)
Definition with_weights (self : ColorProfile) (weights : list Z) : result (list RGB) :=
  @List.concat RGB <$> mapM (fun iw : Z * Z =>
                     c ← getitem (colors self) iw.1;
                     Ok (repeat_list c iw.2))
                  (enumerate weights).

(** The [while extras > 0] loop of [with_length]. *)
Equations? border_loop (extras : Z) (weights : list Z) (border_i : Z)
  : result (list Z) by wf (Z.to_nat extras) lt :=
  border_loop extras weights border_i with decide (extras > 0) := {
    | right _ => Ok weights
    | left _ with iadd_item weights border_i 1 := {
        | Raise e => Raise e
        | Ok w1 with iadd_item w1 (- (border_i + 1)) 1 := {
            | Raise e => Raise e
            | Ok w2 => border_loop (extras - 2) w2 (border_i + 1) } } }.
Proof. lia. Qed.

(** The weights [with_length] hands to [with_weights]: everything in its
    body before the [return]. *)
Definition length_weights (self : ColorProfile) (length : Z) : result (list Z) :=
  let preset_len := len (colors self) in
  let center_i := preset_len / 2 in
  repeats ← floordiv length preset_len;
  let weights := repeat_list repeats preset_len in
  extras ← mod_ length preset_len;
  '(extras, weights) ←
    (if decide (extras mod 2 = 1)
     then w ← iadd_item weights center_i 1; Ok (extras - 1, w)
     else Ok (extras, weights));
  border_loop extras weights 0.

(** [ColorProfile.with_length] *)
Definition with_length (self : ColorProfile) (length : Z) : result (list RGB) :=
  weights ← length_weights self length;
  with_weights self weights.

(** [ColorProfile.color_text]: the body of the [for] loop, then the loop
    followed by the final reset.  The text and the result are lists of code
    points: [len(txt)], [enumerate(txt)] and [txt[i - 1]] go by
    characters. *)
Definition color_text_step (txt : list N) (colors : list RGB)
    (foreground space_only : bool) (result : list N) (it : Z * N)
  : Py.result (list N) :=
  let '(i, t) := it in
  if space_only && negb (bool_decide (t = SPACE)) then
    result ←
      (if decide (i > 0)
       then prev ← getitem txt (i - 1);
            Ok (if bool_decide (prev = SPACE) then result ++ RESET else result)
       else Ok result);
    Ok (result ++ [t])
  else
    c ← getitem colors i;
    Ok (result ++ to_ansi c foreground ++ [t]).

Definition color_text (self : ColorProfile) (txt : list N)
    (foreground space_only : bool) : result (list N) :=
  colors ← with_length self (len txt);
  result ← for_each (color_text_step txt colors foreground space_only)
                    (enumerate txt) [];
  Ok (result ++ RESET).

(** [ColorProfile.lighten] *)
Definition lighten (self : ColorProfile) (multiplier : float) : result ColorProfile :=
  ColorProfile_init (inr ((fun c => rgb_lighten c multiplier) <$> colors self)).

(** [ColorProfile.set_light_raw] *)
Definition set_light_raw (self : ColorProfile) (light : float)
    (at_least at_most : option bool) : result ColorProfile :=
  ColorProfile_init
    (inr ((fun c => rgb_set_light c light at_least at_most) <$> colors self)).

(** [ColorProfile.overlay_raw] *)
Definition overlay_raw (self : ColorProfile) (color : RGB) (alpha : float)
  : result ColorProfile :=
  ColorProfile_init (inr ((fun c => rgb_overlay c color alpha) <$> colors self)).

(** [abs(light - 0.5) * 2] *)
Definition overlay_alpha (light : float) : float :=
  PrimFloat.mul (PrimFloat.abs (PrimFloat.sub light 0.5%float)) 2%float.

(** [ColorProfile.overlay_dl] *)
Definition overlay_dl (self : ColorProfile) (light : float) (term : option string)
  : result ColorProfile :=
  let term := str_or term (light_dark GLOBAL_CFG) in
  _ ← assert (bool_decide (str_lower term ∈ ["light"; "dark"]));
  overlay_color ←
    from_hex (if bool_decide (str_lower term = "light") then "#000000" else "#FFFFFF");
  overlay_raw self overlay_color (overlay_alpha light).

(** [ColorProfile.set_light_dl] *)
Definition set_light_dl (self : ColorProfile) (light : float) (term : option string)
  : result ColorProfile :=
  if use_overlay GLOBAL_CFG then overlay_dl self light term
  else
    let term := str_or term (light_dark GLOBAL_CFG) in
    _ ← assert (bool_decide (str_lower term ∈ ["light"; "dark"]));
    let '(at_least, at_most) :=
      if bool_decide (str_lower term = "dark") then (Some true, None)
      else (None, Some true) in
    set_light_raw self light at_least at_most.

(** [ColorProfile.set_light_dl_def] *)
Definition set_light_dl_def (self : ColorProfile) (term : option string)
  : result ColorProfile :=
  set_light_dl self (default_lightness GLOBAL_CFG term) term.

(** [ColorProfile.unique_colors] *)
Definition unique_colors `{Countable RGB} (self : ColorProfile) : result ColorProfile :=
  ColorProfile_init (inr (remove_duplicates (colors self))).

End ColorProfile.

Arguments ColorProfile : clear implicits.
Arguments mkColorProfile {RGB}.

(** ** [presets.py]: the palette registry *)

(** What a registry entry is written as: [ColorProfile([...])], or
    [ColorProfile(ColorProfile([...]).with_weights([...]))]. *)
Inductive preset_literal : Type :=
| Plain (hex : list string)
| Weighted (hex : list string) (weights : list Z).

(** The hex strings an entry is written with. *)
Definition literal_hex (l : preset_literal) : list string :=
  match l with
  | Plain hex => hex
  | Weighted hex _ => hex
  end.

Definition PRESET_LITERALS : list (string * preset_literal) := [
  ("rainbow", Plain ["#E50000"; "#FF8D00"; "#FFEE00"; "#028121"; "#004CFF"; "#770088"]);
  ("transgender", Plain ["#55CDFD"; "#F6AAB7"; "#FFFFFF"; "#F6AAB7"; "#55CDFD"]);
  ("nonbinary", Plain ["#FCF431"; "#FCFCFC"; "#9D59D2"; "#282828"]);
  ("xenogender", Plain ["#FF6692"; "#FF9A98"; "#FFB883"; "#FBFFA8"; "#85BCFF"; "#9D85FF"; "#A510FF"]);
  ("agender", Plain ["#000000"; "#BABABA"; "#FFFFFF"; "#BAF484"; "#FFFFFF"; "#BABABA"; "#000000"]);
  ("queer", Plain ["#B57FDD"; "#FFFFFF"; "#49821E"]);
  ("genderfluid", Plain ["#FE76A2"; "#FFFFFF"; "#BF12D7"; "#000000"; "#303CBE"]);
  ("bisexual", Plain ["#D60270"; "#9B4F96"; "#0038A8"]);
  ("pansexual", Plain ["#FF1C8D"; "#FFD700"; "#1AB3FF"]);
  ("polysexual", Plain ["#F714BA"; "#01D66A"; "#1594F6"]);
  ("omnisexual", Plain ["#FE9ACE"; "#FF53BF"; "#200044"; "#6760FE"; "#8EA6FF"]);
  ("omniromantic", Plain ["#FEC8E4"; "#FDA1DB"; "#89739A"; "#ABA7FE"; "#BFCEFF"]);
  ("gay-men", Plain ["#078D70"; "#98E8C1"; "#FFFFFF"; "#7BADE2"; "#3D1A78"]);
  ("lesbian", Plain ["#D62800"; "#FF9B56"; "#FFFFFF"; "#D462A6"; "#A40062"]);
  ("abrosexual", Plain ["#46D294"; "#A3E9CA"; "#FFFFFF"; "#F78BB3"; "#EE1766"]);
  ("asexual", Plain ["#000000"; "#A4A4A4"; "#FFFFFF"; "#810081"]);
  ("aromantic", Plain ["#3BA740"; "#A8D47A"; "#FFFFFF"; "#ABABAB"; "#000000"]);
  ("aroace1", Plain ["#E28C00"; "#ECCD00"; "#FFFFFF"; "#62AEDC"; "#203856"]);
  ("aroace2", Plain ["#000000"; "#810081"; "#A4A4A4"; "#FFFFFF"; "#A8D47A"; "#3BA740"]);
  ("aroace3", Plain ["#3BA740"; "#A8D47A"; "#FFFFFF"; "#ABABAB"; "#000000"; "#A4A4A4"; "#FFFFFF"; "#810081"]);
  ("autosexual", Plain ["#99D9EA"; "#7F7F7F"]);
  ("intergender", Plain ["#900DC2"; "#900DC2"; "#FFE54F"; "#900DC2"; "#900DC2"]);
  ("greygender", Plain ["#B3B3B3"; "#B3B3B3"; "#FFFFFF"; "#062383"; "#062383"; "#FFFFFF"; "#535353"; "#535353"]);
  ("akiosexual", Plain ["#F9485E"; "#FEA06A"; "#FEF44C"; "#FFFFFF"; "#000000"]);
  ("bigender", Plain ["#C479A2"; "#EDA5CD"; "#D6C7E8"; "#FFFFFF"; "#D6C7E8"; "#9AC7E8"; "#6D82D1"]);
  ("demigender", Plain ["#7F7F7F"; "#C4C4C4"; "#FBFF75"; "#FFFFFF"; "#FBFF75"; "#C4C4C4"; "#7F7F7F"]);
  ("demiboy", Plain ["#7F7F7F"; "#C4C4C4"; "#9DD7EA"; "#FFFFFF"; "#9DD7EA"; "#C4C4C4"; "#7F7F7F"]);
  ("demigirl", Plain ["#7F7F7F"; "#C4C4C4"; "#FDADC8"; "#FFFFFF"; "#FDADC8"; "#C4C4C4"; "#7F7F7F"]);
  ("transmasculine", Plain ["#FF8ABD"; "#CDF5FE"; "#9AEBFF"; "#74DFFF"; "#9AEBFF"; "#CDF5FE"; "#FF8ABD"]);
  ("transfeminine", Plain ["#73DEFF"; "#FFE2EE"; "#FFB5D6"; "#FF8DC0"; "#FFB5D6"; "#FFE2EE"; "#73DEFF"]);
  ("genderfaun", Plain ["#FCD689"; "#FFF09B"; "#FAF9CD"; "#FFFFFF"; "#8EDED9"; "#8CACDE"; "#9782EC"]);
  ("demifaun", Plain ["#7F7F7F"; "#7F7F7F"; "#C6C6C6"; "#C6C6C6"; "#FCC688"; "#FFF19C"; "#FFFFFF"; "#8DE0D5"; "#9682EC"; "#C6C6C6"; "#C6C6C6"; "#7F7F7F"; "#7F7F7F"]);
  ("genderfae", Plain ["#97C3A5"; "#C3DEAE"; "#F9FACD"; "#FFFFFF"; "#FCA2C4"; "#DB8AE4"; "#A97EDD"]);
  ("demifae", Plain ["#7F7F7F"; "#7F7F7F"; "#C5C5C5"; "#C5C5C5"; "#97C3A4"; "#C4DEAE"; "#FFFFFF"; "#FCA2C5"; "#AB7EDF"; "#C5C5C5"; "#C5C5C5"; "#7F7F7F"; "#7F7F7F"]);
  ("neutrois", Plain ["#FFFFFF"; "#1F9F00"; "#000000"]);
  ("biromantic1", Plain ["#8869A5"; "#D8A7D8"; "#FFFFFF"; "#FDB18D"; "#151638"]);
  ("biromantic2", Plain ["#740194"; "#AEB1AA"; "#FFFFFF"; "#AEB1AA"; "#740194"]);
  ("autoromantic", Plain ["#99D9EA"; "#99D9EA"; "#3DA542"; "#7F7F7F"; "#7F7F7F"]);
  ("boyflux2", Weighted ["#E48AE4"; "#9A81B4"; "#55BFAB"; "#FFFFFF"; "#A8A8A8"; "#81D5EF"; "#69ABE5"; "#5276D4"] [1; 1; 1; 1; 1; 5; 5; 5]);
  ("girlflux", Plain ["f9e6d7"; "f2526c"; "bf0311"; "e9c587"; "bf0311"; "f2526c"; "f9e6d7"]);
  ("genderflux", Plain ["f47694"; "f2a2b9"; "cecece"; "7ce0f7"; "3ecdf9"; "fff48d"]);
  ("finsexual", Plain ["#B18EDF"; "#D7B1E2"; "#F7CDE9"; "#F39FCE"; "#EA7BB3"]);
  ("unlabeled1", Plain ["#EAF8E4"; "#FDFDFB"; "#E1EFF7"; "#F4E2C4"]);
  ("unlabeled2", Plain ["#250548"; "#FFFFFF"; "#F7DCDA"; "#EC9BEE"; "#9541FA"; "#7D2557"]);
  ("pangender", Plain ["#FFF798"; "#FEDDCD"; "#FFEBFB"; "#FFFFFF"; "#FFEBFB"; "#FEDDCD"; "#FFF798"]);
  ("pangender.contrast", Plain ["#ffe87f"; "#fcbaa6"; "#fbc9f3"; "#FFFFFF"; "#fbc9f3"; "#fcbaa6"; "#ffe87f"]);
  ("gendernonconforming1", Weighted ["#50284d"; "#96467b"; "#5c96f7"; "#ffe6f7"; "#5c96f7"; "#96467b"; "#50284d"] [4; 1; 1; 1; 1; 1; 4]);
  ("gendernonconforming2", Plain ["#50284d"; "#96467b"; "#5c96f7"; "#ffe6f7"; "#5c96f7"; "#96467b"; "#50284d"]);
  ("femboy", Plain ["#d260a5"; "#e4afcd"; "#fefefe"; "#57cef8"; "#fefefe"; "#e4afcd"; "#d260a5"]);
  ("tomboy", Plain ["#2f3fb9"; "#613a03"; "#fefefe"; "#f1a9b7"; "#fefefe"; "#613a03"; "#2f3fb9"]);
  ("gynesexual", Plain ["#F4A9B7"; "#903F2B"; "#5B953B"]);
  ("androsexual", Plain ["#01CCFF"; "#603524"; "#B799DE"]);
  ("gendervoid", Plain ["#081149"; "#4B484B"; "#000000"; "#4B484B"; "#081149"]);
  ("voidgirl", Plain ["#180827"; "#7A5A8B"; "#E09BED"; "#7A5A8B"; "#180827"]);
  ("voidboy", Plain ["#0B130C"; "#547655"; "#66B969"; "#547655"; "#0B130C"]);
  ("nonhuman-unity", Plain ["#177B49"; "#FFFFFF"; "#593C90"]);
  ("plural", Plain ["#2D0625"; "#543475"; "#7675C3"; "#89C7B0"; "#F3EDBD"]);
  ("fraysexual", Plain ["#226CB5"; "#94E7DD"; "#FFFFFF"; "#636363"]);
  ("bear", Plain ["#623804"; "#D56300"; "#FEDD63"; "#FEE6B8"; "#FFFFFF"; "#555555"]);
  ("butch", Plain ["#D72800"; "#F17623"; "#FF9C56"; "#FFFDF6"; "#FFCE89"; "#FEAF02"; "#A37000"]);
  ("leather", Plain ["#000000"; "#252580"; "#000000"; "#252580"; "#FFFFFF"; "#252580"; "#000000"; "#252580"; "#000000"]);
  ("otter", Plain ["#263881"; "#5C9DC9"; "#FFFFFF"; "#3A291D"; "#5C9DC9"; "#263881"]);
  ("twink", Plain ["#FFB2FF"; "#FFFFFF"; "#FFFF81"]);
  ("kenochoric", Plain ["#000000"; "#2E1569"; "#824DB7"; "#C7A1D6"]);
  ("veldian", Plain ["#D182A8"; "#FAF6E0"; "#69ACBE"; "#5D448F"; "#3A113E"]);
  ("solian", Plain ["#FFF8ED"; "#FFE7A8"; "#F1B870"; "#A56058"; "#46281E"]);
  ("lunian", Plain ["#2F0E62"; "#6F41B1"; "#889FDF"; "#7DDFD5"; "#D2F2E2"]);
  ("polyam", Plain ["#FFFFFF"; "#FCBF00"; "#009FE3"; "#E50051"; "#340C46"]);
  ("sapphic", Plain ["#FD8BA8"; "#FBF2FF"; "#C76BC5"; "#FDD768"; "#C76BC5"; "#FBF2FF"; "#FD8BA8"]);
  ("androgyne", Plain ["#FE007F"; "#9832FF"; "#00B8E7"]);
  ("interprogress", Plain ["#FFD800"; "#7902AA"; "#FFFFFF"; "#FFAFC8"; "#74D7EE"; "#613915"; "#000000"; "#E50000"; "#FF8D00"; "#FFEE00"; "#028121"; "#004CFF"; "#770088"]);
  ("progress", Plain ["#FFFFFF"; "#FFAFC8"; "#74D7EE"; "#613915"; "#000000"; "#E50000"; "#FF8D00"; "#FFEE00"; "#028121"; "#004CFF"; "#770088"]);
  ("intersex", Plain ["#FFD800"; "#FFD800"; "#7902AA"; "#FFD800"; "#FFD800"]);
  ("old-polyam", Plain ["#0000FF"; "#FF0000"; "#FFFF00"; "#FF0000"; "#000000"]);
  ("equal-rights", Plain ["#0000FF"; "#0000FF"; "#FFFF00"; "#0000FF"; "#0000FF"; "#FFFF00"; "#0000FF"; "#0000FF"]);
  ("drag", Plain ["#CC67FF"; "#FFFFFF"; "#FFA3E3"; "#FFFFFF"; "#3366FF"]);
  ("pronounfluid", Plain ["#ffb3f9"; "#ffffff"; "#d1fdcb"; "#c7b0ff"; "#000000"; "#b8ccff"]);
  ("pronounflux", Plain ["#fdb3f8"; "#b6ccfa"; "#18ddd3"; "#64ff89"; "#ff7690"; "#ffffff"]);
  ("exipronoun", Plain ["#1c3d34"; "#ffffff"; "#321848"; "#000000"]);
  ("neopronoun", Plain ["#bcec64"; "#ffffff"; "#38077a"]);
  ("neofluid", Plain ["#ffeca0"; "#ffffff"; "#ffeca0"; "#38087a"; "#bcec64"]);
  ("genderqueer", Plain ["#b57edc"; "#b57edc"; "#ffffff"; "#ffffff"; "#4a8123"; "#4a8123"]);
  ("cisgender", Plain ["#D70270"; "#0038A7"]);
  ("baker", Plain ["#F23D9E"; "#F80A24"; "#F78022"; "#F9E81F"; "#1E972E"; "#1B86BC"; "#243897"; "#6F0A82"]);
  ("caninekin", Plain ["#2d2822"; "#543d25"; "#9c754d"; "#e8dac2"; "#cfad8c"; "#b77b55"; "#954e31"]);
  ("beiyang", Plain ["#DF1B12"; "#FFC600"; "#01639D"; "#FFFFFF"; "#000000"]);
  ("burger", Plain ["#F3A26A"; "#498701"; "#FD1C13"; "#7D3829"; "#F3A26A"]);
  ("throatlozenges", Plain ["#2759DA"; "#03940D"; "#F5F100"; "#F59B00"; "#B71212"]);
  ("band", Plain ["#2670c0"; "#f5bd00"; "#dc0045"; "#e0608e"])
].

Section Registry.
Context {RGB : Type}.
Variable from_hex : string → result RGB.

Definition build_preset (l : preset_literal) : result (ColorProfile RGB) :=
  match l with
  | Plain hex => ColorProfile_init from_hex (inl hex)
  | Weighted hex weights =>
      inner ← ColorProfile_init from_hex (inl hex);
      rgbs ← with_weights inner weights;
      ColorProfile_init from_hex (inr rgbs)
  end.

(** [PRESETS], evaluated entry by entry when the module is loaded. *)
Definition PRESETS : result (dict string (ColorProfile RGB)) :=
  for_each (fun d (kl : string * preset_literal) =>
              p ← build_preset kl.2; Ok (dict_set d kl.1 p))
           PRESET_LITERALS [].

End Registry.

(** ** [models.py]: the configuration record *)

(** The condition [build_hex_color_profile] negates. *)
Definition valid_hex_color (color : string) : bool :=
  startswith color "#"
  && bool_decide (str_len color ∈ [4; 7])
  && forallb (fun c => char_in c "0123456789abcdefABCDEF") (chars (str_tail color)).

Section Models.
Context {RGB ColorAlignment : Type}.
Variable from_hex : string → result RGB.

(** [build_hex_color_profile]: the [for] loop, then the constructor. *)
Definition validation_loop (hex_colors : list string) : result unit :=
  for_each (fun (_ : unit) color =>
              if negb (valid_hex_color color)
              then Raise (ValueError ("invalid hex color: " +:+ color))
              else Ok ())
           hex_colors ().

Definition build_hex_color_profile (hex_colors : list string)
  : result (ColorProfile RGB) :=
  _ ← validation_loop hex_colors;
  ColorProfile_init from_hex (inl hex_colors).

Record Config : Type := {
  preset : string;
  mode : string;
  cfg_light_dark : string;
  lightness : option float;
  color_align : ColorAlignment;
  backend : string;
  args : option string;
  distro : option string;
  pride_month_shown : list Z;
  pride_month_disable : bool;
  custom_ascii_path : option string;
  custom_presets : option (dict string (list string))
}.

(** [if self.custom_presets:] holds for a dict that is there and not empty. *)
Definition custom_presets_items (self : Config) : list (string * list string) :=
  match custom_presets self with
  | Some d => d
  | None => []
  end.

(** [Config.custom_preset_profiles].  The body of the loop: only a
    [ValueError] is caught, and raised again with the preset's key before
    its message; any other exception passes. *)
Definition key_error (preset_name err : string) : string :=
  "failed to validate custom preset key " +:+ str_of_char dquote
  +:+ preset_name +:+ str_of_char dquote +:+ ": " +:+ err.

Definition custom_preset_step (profiles : dict string (ColorProfile RGB))
    (item : string * list string) : result (dict string (ColorProfile RGB)) :=
  let '(preset_name, colors) := item in
  match build_hex_color_profile colors with
  | Ok profile => Ok (dict_set profiles preset_name profile)
  | Raise (ValueError err) => Raise (ValueError (key_error preset_name err))
  | Raise e => Raise e
  end.

Definition custom_preset_profiles (self : Config)
  : result (dict string (ColorProfile RGB)) :=
  for_each custom_preset_step (custom_presets_items self) [].

(** The entry [item] builds the profile of [kp] under the same key. *)
Definition builds (item : string * list string)
    (kp : string * ColorProfile RGB) : Prop :=
  kp.1 = item.1 ∧ build_hex_color_profile item.2 = Ok kp.2.

End Models.

Arguments Config : clear implicits.

(** ** [rs.py]: the launcher *)

(** What [run_rust] does to the outside: it prints, it runs the Python
    version, it replaces the process. *)
Inductive event : Type :=
| Printc (text : string)
| RunPy.

Inductive outcome : Type :=
| Returns (trace : list event)                       (* [return] *)
| Execv (file : string) (argv : list string)         (* [os.execv], no return *)
| Raises (e : exn).

Definition REASON_WINDOWS : string :=
  "&cWindows < 10 detected, falling back to python version since rust 1.76+ do not support it.".

Definition REASON_MACOS (mac_ver : string) : string :=
  "&cmacOS " +:+ mac_ver
  +:+ " detected, falling back to python version since rust 1.74+ do not support it.".

Definition REASON_MISSING : string :=
  "&cThe executable for hyfetch v2 (rust) is not found, falling back to legacy v1.99.∞ (python).".

Definition SUPPRESS_HINT : string :=
  "You can add environment variable HYFETCH_DONT_WARN_RUST=1 to suppress this warning."
  +:+ str_of_char "010".

Section Launcher.

(** [pathlib.Path] and [constants.SRC]: the path type, the [/] operator,
    [str] and the installation root are parameters. *)
Context {Path : Type}.
Variable joinpath : Path → string → Path.
Variable path_str : Path → string.
Variable SRC : Path.

(** What the launcher reads from its surroundings. *)
Record Env : Type := {
  system : string;              (* [platform.system()] *)
  windows_major : Z;            (* [sys.getwindowsversion().major] *)
  mac_ver : string;             (* [platform.mac_ver()[0]] *)
  path_exists : Path → bool;    (* [p.exists()] *)
  environ : list string;        (* the names in [os.environ] *)
  sys_argv : list string
}.

(** [tuple(map(int, mac_ver.split('.')))] *)
Definition version_tuple (mac_ver : string) : result (list Z) :=
  mapM int (split_at "." mac_ver).

(** The executable looked for. *)
Definition rust_executable (env : Env) : Path :=
  joinpath (joinpath SRC "rust")
           (if bool_decide (system env = "Windows") then "hyfetch.exe" else "hyfetch").

(** The value of [reason] when [run_rust] reaches [if reason:]. *)
Definition fallback_reason (env : Env) : result (option string) :=
  reason ←
    (if bool_decide (system env = "Windows") && (windows_major env <? 10)
     then Ok (Some REASON_WINDOWS)
     else if bool_decide (system env = "Darwin")
     then let mac_ver := mac_ver env in
          if str_truthy mac_ver
          then v ← version_tuple mac_ver;
               Ok (if tuple_lt v [10; 12] then Some (REASON_MACOS mac_ver) else None)
          else Ok None
     else Ok None);
  let pd := rust_executable env in
  Ok (if negb (opt_truthy reason) && negb (path_exists env pd)
      then Some REASON_MISSING
      else reason).

(** What [run_rust] prints before it falls back. *)
Definition warning (env : Env) (reason : string) : list event :=
  if bool_decide ("HYFETCH_DONT_WARN_RUST" ∈ environ env) then []
  else [Printc (reason +:+ str_of_char "010" +:+ SUPPRESS_HINT)].

(** [run_rust] *)
Definition run_rust (env : Env) : outcome :=
  match fallback_reason env with
  | Raise e => Raises e
  | Ok reason =>
      let pd := rust_executable env in
      if opt_truthy reason
      then Returns (warning env (default EmptyString reason) ++ [RunPy])
      else Execv (path_str pd) (path_str pd :: drop 1 (sys_argv env))
  end.

(** The rows of the fallback matrix, as the specification words them. *)
Definition windows_below_10 (env : Env) : Prop :=
  system env = "Windows" ∧ windows_major env < 10.

Definition macos_below_10_12 (env : Env) : Prop :=
  system env = "Darwin" ∧ mac_ver env ≠ EmptyString
  ∧ ∃ v, version_tuple (mac_ver env) = Ok v ∧ tuple_lt v [10; 12] = true.

Definition platform_supported (env : Env) : Prop :=
  ¬ windows_below_10 env
  ∧ (system env = "Darwin" →
     mac_ver env = EmptyString
     ∨ ∃ v, version_tuple (mac_ver env) = Ok v ∧ tuple_lt v [10; 12] = false).

Definition binary_present (env : Env) : Prop :=
  path_exists env (rust_executable env) = true.

End Launcher.

Arguments Env : clear implicits.

(** ** The color utility, from its specification *)

Module ColorUtil.

(** Modelled from the spec: the type [color_util.RGB], whose source is
    missing; a color is three channel values in 0..255. *)
Definition RGB : Type := Z * Z * Z.

#[global] Instance RGB_eq_dec : EqDecision RGB.
Proof. unfold RGB. apply _. Defined.
#[global] Instance RGB_countable : Countable RGB.
Proof. unfold RGB. apply _. Defined.

Definition hex_value (c : ascii) : option Z :=
  let n := nat_of_ascii c in
  if (48 <=? n)%nat && (n <=? 57)%nat then Some (Z.of_nat (n - 48))
  else if (97 <=? n)%nat && (n <=? 102)%nat then Some (Z.of_nat (n - 87))
  else if (65 <=? n)%nat && (n <=? 70)%nat then Some (Z.of_nat (n - 55))
  else None.

(** Modelled from the spec: [RGB.from_hex], whose source is missing.  It
    accepts the 3- and the 6-digit form after a [#], with hex digits of
    either case (a digit of the short form stands for both digits of its
    channel), and fails on anything else.  The specification leaves the
    message of the failure open; it is the literal here. *)
Definition from_hex (hex : string) : result RGB :=
  match hex with
  | String "#" digits =>
      match mapM hex_value (chars digits) with
      | Some [r; g; b] => Ok (17 * r, 17 * g, 17 * b)
      | Some [r1; r0; g1; g0; b1; b0] =>
          Ok (16 * r1 + r0, 16 * g1 + g0, 16 * b1 + b0)
      | _ => Raise (ValueError hex)
      end
  | _ => Raise (ValueError hex)
  end.

(** Modelled from the spec: [RGB.to_ansi], whose source is missing.  It
    renders [ESC[38;2;R;G;Bm] for the foreground and [ESC[48;2;R;G;Bm] for
    the background. *)
Definition to_ansi (c : RGB) (foreground : bool) : string :=
  let '(r, g, b) := c in
  String "027" ("[" +:+ (if foreground then "38" else "48") +:+ ";2;"
                +:+ pretty r +:+ ";" +:+ pretty g +:+ ";" +:+ pretty b +:+ "m").

(** The same, as code points. *)
Definition to_ansi_text (c : RGB) (foreground : bool) : list N :=
  text_of (to_ansi c foreground).

(** Two profiles of the registry, as the constructor builds them. *)
Definition rainbow : ColorProfile RGB :=
  {| raw := Some ["#E50000"; "#FF8D00"; "#FFEE00"; "#028121"; "#004CFF"; "#770088"];
     colors := [(229, 0, 0); (255, 141, 0); (255, 238, 0);
                (2, 129, 33); (0, 76, 255); (119, 0, 136)] |}.

Definition nonbinary : ColorProfile RGB :=
  {| raw := Some ["#FCF431"; "#FCFCFC"; "#9D59D2"; "#282828"];
     colors := [(252, 244, 49); (252, 252, 252); (157, 89, 210); (40, 40, 40)] |}.

Definition queer : ColorProfile RGB :=
  {| raw := Some ["#B57FDD"; "#FFFFFF"; "#49821E"];
     colors := [(181, 127, 221); (255, 255, 255); (73, 130, 30)] |}.

(** A configuration with the defaults of [Config] and the given custom
    presets. *)
Definition config_with (presets : option (dict string (list string))) : Config unit :=
  {| preset := "rainbow"; mode := "rgb"; cfg_light_dark := "dark";
     lightness := None; color_align := (); backend := "neofetch";
     args := None; distro := None; pride_month_shown := [];
     pride_month_disable := false; custom_ascii_path := None;
     custom_presets := presets |}.

End ColorUtil.

(** The specification gives the transforms of a color ([lighten],
    [set_light], [overlay]) by their contract only.  The symbolic colors
    below record which transform was applied to what, so that a run of the
    profile's methods can be read off its result. *)
Module Symbolic.

Inductive RGB : Type :=
| FromHex (hex : string)
| Lighten (c : RGB) (multiplier : float)
| SetLight (c : RGB) (light : float) (at_least at_most : option bool)
| Overlay (c color : RGB) (alpha : float).

Definition from_hex (hex : string) : result RGB := Ok (FromHex hex).

(** A profile of symbolic colors, and the two settings of the strategy
    switch. *)
Definition queer : ColorProfile RGB :=
  {| raw := Some ["#B57FDD"; "#FFFFFF"; "#49821E"];
     colors := [FromHex "#B57FDD"; FromHex "#FFFFFF"; FromHex "#49821E"] |}.

Definition config (overlay : bool) (term : string) : GlobalConfig :=
  {| use_overlay := overlay; light_dark := term;
     default_lightness := fun _ => 0.75%float |}.

End Symbolic.

(** A file system for running the launcher: paths are strings joined by
    [/], and the package is installed under [/opt/hyfetch]. *)
Module Posix.

Definition joinpath (p : string) (name : string) : string := p +:+ "/" +:+ name.
Definition path_str (p : string) : string := p.
Definition SRC : string := "/opt/hyfetch".

Definition env (system mac_ver : string) (major : Z) (installed : bool)
  : Env string :=
  {| system := system; windows_major := major; mac_ver := mac_ver;
     path_exists := fun _ => installed; environ := ["HOME"; "PATH"];
     sys_argv := ["hyfetch"; "--preset"; "rainbow"] |}.

End Posix.

(** ** The hex color literal format, as the specification words it *)

(** A hex digit of either case: [0-9], [a-f], [A-F]. *)
Definition is_hex_digit (c : ascii) : Prop :=
  let n := nat_of_ascii c in
  (48 ≤ n ≤ 57 ∨ 97 ≤ n ≤ 102 ∨ 65 ≤ n ≤ 70)%nat.

#[global] Instance is_hex_digit_dec c : Decision (is_hex_digit c).
Proof. unfold is_hex_digit. apply _. Defined.

(** [#RGB] or [#RRGGBB]: a leading [#], then exactly 3 or 6 hex digits. *)
Definition hex_literal_format (s : string) : Prop :=
  ∃ digits : string,
    s = String "#" digits
    ∧ (String.length digits = 3%nat ∨ String.length digits = 6%nat)
    ∧ Forall is_hex_digit (chars digits).

(** ** The weight policy of [with_length], as the specification words it *)

(** Weight of the color at index [i] among [n] colors for a text of
    [length] characters: the base weight [length // n]; one more for the
    center color [n // 2] when the remainder [length % n] is odd; one more
    for each of the [extras // 2] outermost colors on either side. *)
Definition policy_weight (n length : Z) (i : Z) : Z :=
  let extras := length mod n in
  length / n
  + (if decide (extras mod 2 = 1 ∧ i = n / 2) then 1 else 0)
  + (if decide (i < extras / 2 ∨ n - 1 - i < extras / 2) then 1 else 0).

Definition policy_weights (n length : Z) : list Z :=
  (fun i : nat => policy_weight n length (Z.of_nat i)) <$> seq 0 (Z.to_nat n).

(** Each color repeated as often as its weight says, in order. *)
Definition expand {RGB} (cs : list RGB) (weights : list Z) : list RGB :=
  List.concat (zip_with repeat_list cs weights).

(** ** The output of [color_text], character by character *)

(** The escape sequence of the color at position [i]. *)
Definition color_at {RGB} (to_ansi : RGB → bool → list N) (cols : list RGB)
    (foreground : bool) (i : nat) : list N :=
  from_option (fun c => to_ansi c foreground) [] (cols !! i).

(** Whether the character before position [i] is a space. *)
Definition follows_space (txt : list N) (i : nat) : bool :=
  match i with
  | O => false
  | S j => bool_decide (txt !! j = Some SPACE)
  end.

(** What is written for the character [t] at position [i]: in space-only
    mode a character other than a space is written without color, after a
    reset when it follows a space; any other character is written after
    its color. *)
Definition rendered {RGB} (to_ansi : RGB → bool → list N) (txt : list N)
    (cols : list RGB) (foreground space_only : bool) (i : nat) (t : N) : list N :=
  if space_only && negb (bool_decide (t = SPACE))
  then (if follows_space txt i then RESET else []) ++ [t]
  else color_at to_ansi cols foreground i ++ [t].

Definition rendered_text {RGB} (to_ansi : RGB → bool → list N) (txt : list N)
    (cols : list RGB) (foreground space_only : bool) : list N :=
  List.concat (imap (rendered to_ansi txt cols foreground space_only) txt).

(** ** De-duplication, as the specification words it *)

(** The element at position [i] is kept when it does not occur before
    position [i]; the kept elements stay in their order. *)
Definition first_occurrences `{EqDecision A} (l : list A) : list A :=
  List.concat (imap (fun i x => if decide (x ∈ take i l) then [] else [x]) l).

(** ** [models.py]: [Config.from_dict] *)

(** [d[k]] on a [dict], [None] standing for the [KeyError]. *)
Fixpoint dict_get {K V} `{EqDecision K} (d : dict K V) (k : K) : option V :=
  match d with
  | [] => None
  | (k', v) :: d' => if decide (k' = k) then Some v else dict_get d' k
  end.

Section FromDict.

(** [ColorAlignment.from_dict] and the generic [from_dict] of [serializer]
    are imported by [models.py]: they are parameters, as are the parsed
    values of the dictionary and the exceptions the two functions raise. *)
Context {JSON ColorAlignment Exc : Type}.

(** What the dictionary holds: a parsed value, or, once [from_dict] has
    run, the alignment object. *)
Inductive dict_value : Type :=
| Parsed (j : JSON)
| Aligned (a : ColorAlignment).

Inductive from_dict_exn : Type :=
| KeyError (key : string)
| Collaborator (e : Exc).

Variable alignment_from_dict : dict_value → Exc + ColorAlignment.
Variable generic_from_dict :
  dict string dict_value → Exc + Config ColorAlignment.

(** [Config.from_dict]: the dictionary as the call leaves it, and what the
    call returns or raises. *)
Definition Config_from_dict (d : dict string dict_value)
  : dict string dict_value * (from_dict_exn + Config ColorAlignment) :=
  match dict_get d "color_align" with
  | None => (d, inl (KeyError "color_align"))
  | Some v =>
      match alignment_from_dict v with
      | inl e => (d, inl (Collaborator e))
      | inr a =>
          let d := dict_set d "color_align" (Aligned a) in
          (d, match generic_from_dict d with
              | inl e => inl (Collaborator e)
              | inr cfg => inr cfg
              end)
      end
  end.

End FromDict.

Arguments dict_value : clear implicits.
Arguments from_dict_exn : clear implicits.

(** [GLOBAL_CFG] with another answer of [light_dark()]. *)
Definition with_light_dark (cfg : GlobalConfig) (term : string) : GlobalConfig :=
  {| use_overlay := use_overlay cfg; light_dark := term;
     default_lightness := default_lightness cfg |}.

(** Text made of ASCII characters only. *)
Definition is_ascii (s : string) : Prop :=
  Forall (fun c => (nat_of_ascii c < 128)%nat) (chars s).

(** ** The launcher's surroundings, changed in one place *)

Definition with_windows_major {Path} (env : Env Path) (major : Z) : Env Path :=
  {| system := system env; windows_major := major; mac_ver := mac_ver env;
     path_exists := path_exists env; environ := environ env;
     sys_argv := sys_argv env |}.

Definition with_mac_ver {Path} (env : Env Path) (version : string) : Env Path :=
  {| system := system env; windows_major := windows_major env;
     mac_ver := version; path_exists := path_exists env;
     environ := environ env; sys_argv := sys_argv env |}.

(** ** Version strings *)

(** A number written with the digits 0-9, and its value. *)
Definition is_decimal (s : string) : Prop :=
  s ≠ EmptyString ∧ Forall (fun c => is_Some (digit_value c)) (chars s).

Definition decimal_value (s : string) : Z :=
  foldl (fun acc c => 10 * acc + default 0 (digit_value c)) 0 (chars s).

(** ** Auxiliary notions for the proofs *)

(** What the constructor calls of a registry entry need besides parsable
    strings: a color, no more weights than colors, a first weight above
    zero. *)
Definition literal_wf (l : preset_literal) : bool :=
  match l with
  | Plain hex => negb (bool_decide (hex = []))
  | Weighted hex weights =>
      negb (bool_decide (hex = []))
      && bool_decide (length weights ≤ length hex)%nat
      && bool_decide (0 < default 0 (head weights))
  end.

(** The entry [kl] of the table builds the profile of [kp] under its name. *)
Definition loads {RGB} (from_hex : string → result RGB)
    (kl : string * preset_literal) (kp : string * ColorProfile RGB) : Prop :=
  kp.1 = kl.1 ∧ build_preset from_hex kl.2 = Ok kp.2.

Definition sumZ (l : list Z) : Z := foldr Z.add 0 l.

(** The list [f 0, ..., f (n-1)]. *)
Definition tab (n : nat) (f : nat → Z) : list Z := f <$> seq 0 n.

(** * Properties *)

(** ** Lists of integers updated in place *)

Lemma tab_length n f : length (tab n f) = n.
Proof. unfold tab. by rewrite length_fmap, length_seq. Qed.

Lemma tab_lookup n f k : (k < n)%nat → tab n f !! k = Some (f k).
Proof.
  intros Hk. unfold tab. rewrite list_lookup_fmap, lookup_seq_lt by done. done.
Qed.

Lemma tab_ext n f g : (∀ k, (k < n)%nat → f k = g k) → tab n f = tab n g.
Proof.
  intros Hfg. apply list_eq. intros k.
  destruct (decide (k < n)%nat) as [Hk|Hk].
  - rewrite !tab_lookup by done. f_equal. auto.
  - rewrite !lookup_ge_None_2; [done| |]; rewrite tab_length; lia.
Qed.

Lemma tab_insert n f k y :
  (k < n)%nat →
  <[k := y]> (tab n f) = tab n (fun j => if decide (j = k) then y else f j).
Proof.
  intros Hk. apply list_eq. intros j.
  destruct (decide (j < n)%nat) as [Hj|Hj].
  - rewrite tab_lookup by done.
    destruct (decide (j = k)) as [->|Hne].
    + rewrite list_lookup_insert_eq; [done | by rewrite tab_length].
    + rewrite list_lookup_insert_ne by done. by apply tab_lookup.
  - rewrite !lookup_ge_None_2; [done| |];
      rewrite ?length_insert, tab_length; lia.
Qed.

Lemma tab_replicate n x : replicate n x = tab n (fun _ => x).
Proof.
  apply list_eq. intros k. destruct (decide (k < n)%nat) as [Hk|Hk].
  - rewrite tab_lookup by done. by apply lookup_replicate_2.
  - rewrite !lookup_ge_None_2; [done| |];
      rewrite ?length_replicate, ?tab_length; lia.
Qed.

Lemma norm_index_nonneg n i :
  0 <= i < Z.of_nat n → norm_index n i = Ok (Z.to_nat i).
Proof. intros Hi. unfold norm_index. by rewrite decide_True. Qed.

Lemma norm_index_neg n i :
  - Z.of_nat n <= i < 0 → norm_index n i = Ok (Z.to_nat (Z.of_nat n + i)).
Proof.
  intros Hi. unfold norm_index.
  rewrite decide_False by lia. by rewrite decide_True.
Qed.

Lemma norm_index_lt n i k : norm_index n i = Ok k → (k < n)%nat.
Proof.
  unfold norm_index. repeat case_decide; intros [= <-]; lia.
Qed.

Lemma iadd_item_tab n f i d k :
  norm_index n i = Ok k →
  iadd_item (tab n f) i d
  = Ok (tab n (fun j => if decide (j = k) then f j + d else f j)).
Proof.
  intros Hn. pose proof (norm_index_lt _ _ _ Hn) as Hk.
  unfold iadd_item. rewrite tab_length, Hn. simpl.
  rewrite tab_lookup by done. rewrite tab_insert by done.
  f_equal. apply tab_ext. intros j _. by case_decide; subst.
Qed.

Lemma sumZ_insert (l : list Z) k x y :
  l !! k = Some x → sumZ (<[k := y]> l) = sumZ l - x + y.
Proof.
  revert k. induction l as [|a l IH]; intros [|k] Hk; simplify_eq/=.
  - lia.
  - rewrite (IH k) by done. lia.
Qed.

Lemma sumZ_replicate n x : sumZ (replicate n x) = Z.of_nat n * x.
Proof. induction n as [|n IH]; simpl; [done|]. rewrite IH. lia. Qed.

Lemma iadd_item_sum l i d l' :
  iadd_item l i d = Ok l' → sumZ l' = sumZ l + d ∧ length l' = length l.
Proof.
  unfold iadd_item. destruct (norm_index (length l) i) as [k|]; simpl; [|done].
  destruct (l !! k) as [x|] eqn:Hx; [|done]. intros [= <-].
  rewrite (sumZ_insert _ _ _ _ Hx), length_insert. lia.
Qed.

(** ** The border loop *)

Lemma border_loop_step extras weights border_i :
  border_loop extras weights border_i
  = if decide (extras > 0)
    then w1 ← iadd_item weights border_i 1;
         w2 ← iadd_item w1 (- (border_i + 1)) 1;
         border_loop (extras - 2) w2 (border_i + 1)
    else Ok weights.
Proof.
  rewrite border_loop_equation_1. unfold border_loop_clause_1.
  destruct (decide (extras > 0)); [|done]. simpl.
  destruct (iadd_item weights border_i 1) as [w1|]; simpl; [|done].
  by destruct (iadd_item w1 (- (border_i + 1)) 1).
Qed.

(** [m] rounds of the loop over a tabulated list, started at border index
    [b]: the [m] positions from [b] on and their mirror images gain one. *)
Lemma border_loop_tab n f (m : nat) (b : nat) :
  (m = 0 ∨ 2 * b + 2 * m < n)%nat →
  border_loop (2 * Z.of_nat m) (tab n f) (Z.of_nat b)
  = Ok (tab n (fun j =>
      f j + if decide (b ≤ j < b + m ∨ b ≤ n - 1 - j < b + m)%nat
            then 1 else 0)).
Proof.
  revert f b. induction m as [|m IH]; intros f b Hm.
  - rewrite border_loop_step, decide_False by lia. f_equal.
    apply tab_ext. intros j _. rewrite decide_False by lia. lia.
  - destruct Hm as [|Hm]; [lia|].
    rewrite border_loop_step, decide_True by lia.
    rewrite (iadd_item_tab _ _ _ _ b) by (rewrite norm_index_nonneg; [f_equal|]; lia).
    simpl.
    rewrite (iadd_item_tab _ _ _ _ (n - 1 - b)%nat)
      by (rewrite norm_index_neg; [f_equal|]; lia).
    simpl.
    replace (2 * Z.of_nat (S m) - 2) with (2 * Z.of_nat m) by lia.
    replace (Z.of_nat b + 1) with (Z.of_nat (S b)) by lia.
    rewrite IH by lia. f_equal. apply tab_ext. intros j Hj.
    repeat case_decide; lia.
Qed.

Lemma border_loop_sum (m : nat) : ∀ w b w',
  border_loop (2 * Z.of_nat m) w b = Ok w' →
  sumZ w' = sumZ w + 2 * Z.of_nat m ∧ length w' = length w.
Proof.
  induction m as [|m IH]; intros w b w'; rewrite border_loop_step.
  - rewrite decide_False by lia. intros [= <-]. lia.
  - rewrite decide_True by lia.
    destruct (iadd_item w b 1) as [w1|] eqn:H1; simpl; [|done].
    destruct (iadd_item w1 (- (b + 1)) 1) as [w2|] eqn:H2; simpl; [|done].
    replace (2 * Z.of_nat (S m) - 2) with (2 * Z.of_nat m) by lia.
    intros Hloop. apply IH in Hloop.
    apply iadd_item_sum in H1, H2. lia.
Qed.

(** ** [with_length] *)

Lemma half_split e :
  0 <= e →
  ∃ m : nat, Z.of_nat m = e / 2 ∧ e = 2 * Z.of_nat m + e mod 2
             ∧ (e mod 2 = 0 ∨ e mod 2 = 1).
Proof.
  intros He. exists (Z.to_nat (e / 2)).
  pose proof (Z.div_mod e 2 ltac:(lia)).
  pose proof (Z.mod_pos_bound e 2 ltac:(lia)).
  pose proof (Z.div_pos e 2 He ltac:(lia)). lia.
Qed.

Section with_length_facts.
Context {RGB : Type}.
Implicit Types (p : ColorProfile RGB) (cs : list RGB) (ws : list Z).

Lemma policy_weights_tab n L :
  policy_weights n L = tab (Z.to_nat n) (fun i => policy_weight n L (Z.of_nat i)).
Proof. done. Qed.

(** On a profile that has a color, the weights are the policy's, whatever
    the sign of the length. *)
Lemma length_weights_policy p L :
  colors p ≠ [] →
  length_weights p L = Ok (policy_weights (len (colors p)) L).
Proof.
  intros Hne. unfold length_weights, len.
  set (k := length (colors p)).
  assert (0 < k)%nat as Hk by (subst k; destruct (colors p); simpl; [done|lia]).
  cbv zeta. unfold floordiv, mod_. rewrite !decide_False by lia. simpl.
  unfold repeat_list. rewrite policy_weights_tab, tab_replicate, Nat2Z.id.
  set (n := Z.of_nat k). assert (n = Z.of_nat k) as Hn by done.
  pose proof (Z.mod_pos_bound L n ltac:(lia)) as He.
  set (e := L mod n) in *.
  destruct (half_split e ltac:(lia)) as (m & Hm & Hem & Hpar).
  destruct (half_split n ltac:(lia)) as (c & Hc & Hnc & Hparn).
  case_decide as Hodd; simpl.
  - rewrite (iadd_item_tab _ _ _ _ c)
      by (rewrite norm_index_nonneg; [f_equal|]; lia).
    simpl. replace (e - 1) with (2 * Z.of_nat m) by lia.
    rewrite (border_loop_tab _ _ m 0) by lia. f_equal.
    apply tab_ext. intros j Hj. unfold policy_weight. fold n e.
    repeat case_decide; lia.
  - replace e with (2 * Z.of_nat m) at 1 by lia.
    rewrite (border_loop_tab _ _ m 0) by lia. f_equal.
    apply tab_ext. intros j Hj. unfold policy_weight. fold n e.
    repeat case_decide; lia.
Qed.

(** The weights add up to the length: the loop keeps
    [sum weights + extras] unchanged. *)
Lemma length_weights_sum p L ws :
  length_weights p L = Ok ws →
  sumZ ws = L ∧ length ws = length (colors p).
Proof.
  unfold length_weights, len. set (n := Z.of_nat (length (colors p))).
  unfold floordiv, mod_. case_decide as Hn; simpl; [done|].
  pose proof (Z.mod_pos_bound L n ltac:(lia)) as He.
  pose proof (Z.div_mod L n Hn) as Hdiv.
  set (e := L mod n) in *.
  destruct (half_split e ltac:(lia)) as (m & Hm & Hem & Hpar).
  assert (sumZ (repeat_list (L / n) n) = n * (L / n)
          ∧ length (repeat_list (L / n) n) = length (colors p)) as [Hs Hl].
  { unfold repeat_list. rewrite sumZ_replicate, length_replicate. lia. }
  case_decide as Hodd; simpl.
  - destruct (iadd_item _ _ _) as [w|] eqn:Hw; simpl; [|done].
    apply iadd_item_sum in Hw.
    replace (e - 1) with (2 * Z.of_nat m) by lia.
    intros Hloop%border_loop_sum. lia.
  - replace e with (2 * Z.of_nat m) at 1 by lia.
    intros Hloop%border_loop_sum. lia.
Qed.

Lemma getitem_lookup {A} (l : list A) (k : nat) x :
  l !! k = Some x → getitem l (Z.of_nat k) = Ok x.
Proof.
  intros Hx. unfold getitem.
  rewrite norm_index_nonneg by (apply lookup_lt_Some in Hx; lia).
  simpl. by rewrite Nat2Z.id, Hx.
Qed.

Lemma with_weights_from cs ws : ∀ k,
  (k + length ws ≤ length cs)%nat →
  mapM (fun iw : Z * Z => c ← getitem cs iw.1; Ok (repeat_list c iw.2))
       (imap (fun i x => (Z.of_nat (k + i), x)) ws)
  = Ok (zip_with repeat_list (drop k cs) ws).
Proof.
  induction ws as [|w ws IH]; intros k Hk; simpl in *.
  - by destruct (drop k cs).
  - destruct (lookup_lt_is_Some_2 cs k ltac:(lia)) as [c Hc].
    rewrite Nat.add_0_r, (getitem_lookup _ _ _ Hc). simpl.
    rewrite (drop_S _ _ _ Hc). simpl.
    rewrite (imap_ext _ (fun i x => (Z.of_nat (S k + i), x)))
      by (intros; simpl; f_equal; lia).
    by rewrite IH by lia.
Qed.

Lemma with_weights_expand p ws :
  (length ws ≤ length (colors p))%nat →
  with_weights p ws = Ok (expand (colors p) ws).
Proof.
  intros Hl. unfold with_weights, enumerate, expand.
  by rewrite (with_weights_from _ _ 0%nat) by done.
Qed.

Lemma expand_length cs ws :
  length cs = length ws → Forall (Z.le 0) ws → len (expand cs ws) = sumZ ws.
Proof.
  unfold expand, len. revert ws.
  induction cs as [|c cs IH]; intros [|w ws] Hl Hpos; simplify_eq/=; [done|].
  apply Forall_cons in Hpos as [Hw Hpos].
  rewrite length_app, Nat2Z.inj_add, IH by done.
  unfold repeat_list. rewrite length_replicate. lia.
Qed.

Lemma policy_weights_nonneg n L : 0 < n → 0 <= L → Forall (Z.le 0) (policy_weights n L).
Proof.
  intros Hn HL. unfold policy_weights. apply Forall_fmap, Forall_forall.
  intros i _. simpl. unfold policy_weight.
  pose proof (Z.div_pos L n HL Hn). repeat case_decide; lia.
Qed.

End with_length_facts.

Lemma policy_weights_length n L : length (policy_weights n L) = Z.to_nat n.
Proof. unfold policy_weights. by rewrite length_fmap, length_seq. Qed.

Lemma with_length_expand {RGB} (p : ColorProfile RGB) L :
  colors p ≠ [] →
  with_length p L = Ok (expand (colors p) (policy_weights (len (colors p)) L)).
Proof.
  intros Hne. unfold with_length. rewrite length_weights_policy by done. simpl.
  apply with_weights_expand. rewrite policy_weights_length. unfold len. lia.
Qed.

Lemma with_length_len {RGB} (p : ColorProfile RGB) L out :
  0 <= L → with_length p L = Ok out → len out = L.
Proof.
  intros HL. unfold with_length.
  destruct (length_weights p L) as [ws|] eqn:Hws; simpl; [|done].
  assert (colors p ≠ []) as Hne.
  { intros Hnil. revert Hws. unfold length_weights, floordiv, len.
    rewrite Hnil. simpl. done. }
  pose proof (length_weights_sum _ _ _ Hws) as [Hsum Hlen].
  rewrite length_weights_policy in Hws by done. injection Hws as <-.
  rewrite with_weights_expand by lia. intros [= <-].
  rewrite expand_length; [done..|].
  apply policy_weights_nonneg; [|done].
  unfold len. destruct (colors p); simpl; [done|lia].
Qed.

(** ** Claims about [with_length] and the constructor *)

(** C1 (amended).  For a profile of [n >= 1] colors and a length [L >= 0],
    [with_length] returns a flat sequence of exactly [L] colors, each color
    repeated as the policy says: the base weight [L // n]; one more for the
    center color [n // 2] when [L % n] is odd; one more for each of the
    [(L % n) // 2] outermost colors on either side.  For 3 colors and length
    10 the weights are [3,4,3]; for 4 colors and length 10 they are
    [3,2,2,3] (the two border colors gain one). *)
Theorem with_length_policy {RGB} (p : ColorProfile RGB) (L : Z) :
  colors p ≠ [] → 0 <= L →
  let n := len (colors p) in
  length_weights p L = Ok (policy_weights n L)
  ∧ with_length p L = Ok (expand (colors p) (policy_weights n L))
  ∧ len (expand (colors p) (policy_weights n L)) = L
  ∧ (n = 3 → length_weights p 10 = Ok [3; 4; 3])
  ∧ (n = 4 → length_weights p 10 = Ok [3; 2; 2; 3]).
Proof.
  intros Hne HL n. split_and!.
  - by apply length_weights_policy.
  - by apply with_length_expand.
  - apply (with_length_len p); [done|]. by apply with_length_expand.
  - intros Hn. rewrite length_weights_policy by done. fold n. by rewrite Hn.
  - intros Hn. rewrite length_weights_policy by done. fold n. by rewrite Hn.
Qed.

Lemma with_length_policy_witness :
  let p := ColorUtil.nonbinary in
  length_weights p 10 = Ok (policy_weights 4 10)
  ∧ with_length p 10 = Ok (expand (colors p) (policy_weights 4 10))
  ∧ len (expand (colors p) (policy_weights 4 10)) = 10
  ∧ (4 = 3 → length_weights p 10 = Ok [3; 4; 3])
  ∧ (4 = 4 → length_weights p 10 = Ok [3; 2; 2; 3]).
Proof.
  exact (with_length_policy ColorUtil.nonbinary 10 ltac:(discriminate) ltac:(lia)).
Defined.

(** C1 as the specification has it fails on four colors: the weights for
    length 10 are [3,2,2,3], not [2,3,3,2]. *)
Lemma with_length_four_colors_counterexample :
  length_weights ColorUtil.nonbinary 10 = Ok [3; 2; 2; 3]
  ∧ length_weights ColorUtil.nonbinary 10 ≠ Ok [2; 3; 3; 2].
Proof. split; [reflexivity | discriminate]. Qed.

Section construction.
Context {RGB : Type} (from_hex : string → result RGB).

Lemma getitem_first {A} (x : A) l : getitem (x :: l) 0 = Ok x.
Proof. unfold getitem. rewrite norm_index_nonneg by (simpl; lia). done. Qed.

Lemma getitem_nil {A} i : getitem (@nil A) i = Raise IndexError.
Proof. unfold getitem, norm_index. simpl. by rewrite !decide_False by lia. Qed.

Lemma init_rgb (rgbs : list RGB) :
  rgbs ≠ [] →
  ColorProfile_init from_hex (inr rgbs) = Ok {| raw := None; colors := rgbs |}.
Proof. destruct rgbs; [done|]. intros _. unfold ColorProfile_init. by rewrite getitem_first. Qed.

Lemma init_hex (strs : list string) :
  strs ≠ [] →
  ColorProfile_init from_hex (inl strs)
  = rgbs ← mapM from_hex strs; Ok {| raw := Some strs; colors := rgbs |}.
Proof. destruct strs; [done|]. intros _. unfold ColorProfile_init. by rewrite getitem_first. Qed.

Lemma mapM_result_length {A B} (f : A → result B) l k :
  mapM f l = Ok k → length k = length l.
Proof.
  revert k. induction l as [|x l IH]; intros k; simpl.
  - by intros [= <-].
  - destruct (f x); simpl; [|done].
    destruct (mapM f l) eqn:Hl; simpl; [|done].
    intros [= <-]. simpl. f_equal. by apply IH.
Qed.

(** A profile the constructor returns has a color. *)
Lemma init_nonempty cs (p : ColorProfile RGB) :
  ColorProfile_init from_hex cs = Ok p → colors p ≠ [].
Proof.
  destruct cs as [strs|rgbs].
  - destruct (decide (strs = [])) as [->|Hne]; [done|].
    rewrite init_hex by done.
    destruct (mapM from_hex strs) as [rgbs|] eqn:Hm; simpl; [|done].
    intros [= <-]. simpl. apply mapM_result_length in Hm.
    by destruct rgbs, strs.
  - destruct (decide (rgbs = [])) as [->|Hne]; [done|].
    rewrite init_rgb by done. by intros [= <-].
Qed.

(** C9 (amended).  The constructor raises [IndexError] on an empty list of
    either kind, and [with_length] raises [ZeroDivisionError] on a profile
    without colors.  On a non-empty list of RGB values the constructor
    returns the profile; on a non-empty list of hex strings it returns the
    profile when [from_hex] accepts every string, and raises what [from_hex]
    raises otherwise.  [with_length] returns on every profile that has a
    color, for every integer length. *)
Theorem construction_partial_on_empty :
  ColorProfile_init from_hex (inl []) = Raise IndexError
  ∧ ColorProfile_init from_hex (inr []) = Raise IndexError
  ∧ (∀ (p : ColorProfile RGB) L,
       colors p = [] → with_length p L = Raise ZeroDivisionError)
  ∧ (∀ rgbs, rgbs ≠ [] →
       ColorProfile_init from_hex (inr rgbs) = Ok {| raw := None; colors := rgbs |})
  ∧ (∀ strs rgbs, strs ≠ [] → mapM from_hex strs = Ok rgbs →
       ColorProfile_init from_hex (inl strs)
       = Ok {| raw := Some strs; colors := rgbs |})
  ∧ (∀ strs e, strs ≠ [] → mapM from_hex strs = Raise e →
       ColorProfile_init from_hex (inl strs) = Raise e)
  ∧ (∀ (p : ColorProfile RGB) L,
       colors p ≠ [] → ∃ out, with_length p L = Ok out).
Proof.
  split_and!.
  - done.
  - done.
  - intros p L Hnil. unfold with_length, length_weights, len, floordiv.
    by rewrite Hnil.
  - apply init_rgb.
  - intros strs rgbs Hne Hm. by rewrite init_hex, Hm.
  - intros strs e Hne Hm. by rewrite init_hex, Hm.
  - intros p L Hne. eexists. by apply with_length_expand.
Qed.

End construction.

Lemma construction_partial_on_empty_witness :
  ColorProfile_init ColorUtil.from_hex (inl ["#B57FDD"; "#FFFFFF"; "#49821E"])
  = Ok ColorUtil.queer
  ∧ ColorProfile_init ColorUtil.from_hex (inr (colors ColorUtil.queer))
    = Ok {| raw := None; colors := colors ColorUtil.queer |}
  ∧ (∃ out, with_length ColorUtil.queer (-4) = Ok out).
Proof.
  destruct (construction_partial_on_empty ColorUtil.from_hex)
    as (_ & _ & _ & Hrgb & Hhex & _ & Hlen).
  split_and!.
  - apply Hhex; [discriminate | reflexivity].
  - apply Hrgb. discriminate.
  - apply Hlen. discriminate.
Defined.

(** C9 as stated fails: a non-empty list of strings need not build a
    profile.  The hex parser of the specification rejects a malformed
    literal, and the constructor passes the failure on. *)
Lemma construction_nonempty_counterexample :
  ["#gggggg"] ≠ []
  ∧ (∃ msg, ColorProfile_init ColorUtil.from_hex (inl ["#gggggg"])
            = Raise (ValueError msg))
  ∧ ∀ p, ColorProfile_init ColorUtil.from_hex (inl ["#gggggg"]) ≠ Ok p.
Proof. split_and!; [discriminate | by eexists | discriminate]. Qed.

(** ** Claims about hex validation and custom presets *)

Lemma char_in_hex_digits c :
  char_in c "0123456789abcdefABCDEF" = bool_decide (is_hex_digit c).
Proof. by destruct c as [[] [] [] [] [] [] [] []]. Qed.

Lemma chars_length s : length (chars s) = String.length s.
Proof. induction s; simpl; by f_equal. Qed.

Lemma startswith_hash s :
  startswith s "#" = true ↔ ∃ digits, s = String "#" digits.
Proof.
  unfold startswith. destruct s as [|c digits]; cbn [String.prefix].
  { split; [done|]. by intros [? ?]. }
  destruct (ascii_dec "#" c) as [<-|Hne].
  - split; [by exists digits|]. by destruct digits.
  - split; [done|]. intros [? [= ? ?]]. by subst.
Qed.

Lemma valid_hex_color_format s :
  valid_hex_color s = true ↔ hex_literal_format s.
Proof.
  unfold valid_hex_color, hex_literal_format.
  rewrite !andb_true_iff, bool_decide_eq_true, forallb_forall, startswith_hash.
  rewrite !elem_of_cons, elem_of_nil.
  split.
  - intros [[[digits ->] Hlen] Hdig]. exists digits.
    unfold str_len in Hlen. simpl in *. split_and!; [done|lia|].
    apply Forall_forall. intros x Hx%list_elem_of_In%Hdig.
    rewrite char_in_hex_digits in Hx. by apply bool_decide_eq_true in Hx.
  - intros (digits & -> & Hlen & Hdig). split_and!.
    + by exists digits.
    + unfold str_len. simpl. lia.
    + intros x Hx%list_elem_of_In. rewrite char_in_hex_digits.
      apply bool_decide_eq_true. by eapply Forall_forall in Hdig.
Qed.

Lemma invalid_hex_color_format s :
  valid_hex_color s = false ↔ ¬ hex_literal_format s.
Proof. rewrite <- valid_hex_color_format. by destruct (valid_hex_color s). Qed.

Section models_facts.
Context {RGB ColorAlignment : Type} (from_hex : string → result RGB).

Lemma validation_loop_valid cs :
  Forall hex_literal_format cs → validation_loop cs = Ok ().
Proof.
  unfold validation_loop. induction 1 as [|c cs Hc _ IH]; simpl; [done|].
  apply valid_hex_color_format in Hc. by rewrite Hc.
Qed.

Lemma validation_loop_invalid pre c post :
  Forall hex_literal_format pre → ¬ hex_literal_format c →
  validation_loop (pre ++ c :: post)
  = Raise (ValueError ("invalid hex color: " +:+ c)).
Proof.
  unfold validation_loop. intros Hpre Hc.
  induction Hpre as [|x pre Hx _ IH]; simpl.
  - apply invalid_hex_color_format in Hc. by rewrite Hc.
  - apply valid_hex_color_format in Hx. by rewrite Hx.
Qed.

Lemma build_valid cs :
  Forall hex_literal_format cs → build_hex_color_profile from_hex cs = ColorProfile_init from_hex (inl cs).
Proof.
  intros Hcs. unfold build_hex_color_profile.
  by rewrite validation_loop_valid.
Qed.

Lemma build_invalid pre c post :
  Forall hex_literal_format pre → ¬ hex_literal_format c →
  build_hex_color_profile from_hex (pre ++ c :: post) = Raise (ValueError ("invalid hex color: " +:+ c)).
Proof.
  intros Hpre Hc. unfold build_hex_color_profile.
  by rewrite validation_loop_invalid.
Qed.

(** C3.  Validation accepts a string exactly when it is a [#] followed by
    3 or 6 hex digits of either case (so its length is 4 or 7).  A list of
    such strings goes on to the constructor; the first string of a list
    that is not of that form is rejected with a [ValueError] whose message
    names it. *)
Theorem hex_validation :
  (∀ s, valid_hex_color s = true ↔ hex_literal_format s)
  ∧ (∀ cs, Forall hex_literal_format cs →
       build_hex_color_profile from_hex cs = ColorProfile_init from_hex (inl cs))
  ∧ (∀ pre c post, Forall hex_literal_format pre → ¬ hex_literal_format c →
       build_hex_color_profile from_hex (pre ++ c :: post)
       = Raise (ValueError ("invalid hex color: " +:+ c)))
  ∧ valid_hex_color "#fff" = true ∧ valid_hex_color "#ffffff" = true
  ∧ valid_hex_color "fff" = false ∧ valid_hex_color "#ff" = false
  ∧ valid_hex_color "#gggggg" = false.
Proof.
  split_and!; try reflexivity.
  - apply valid_hex_color_format.
  - apply build_valid.
  - apply build_invalid.
Qed.

End models_facts.

Lemma hex_validation_witness :
  build_hex_color_profile ColorUtil.from_hex ["#fff"; "#FCF431"]
  = Ok {| raw := Some ["#fff"; "#FCF431"];
          colors := [(255, 255, 255); (252, 244, 49)] |}
  ∧ build_hex_color_profile ColorUtil.from_hex ["#fff"; "#ff"; "fff"]
    = Raise (ValueError "invalid hex color: #ff").
Proof.
  destruct (hex_validation ColorUtil.from_hex) as (Hfmt & Hok & Hbad & _).
  split.
  - rewrite Hok; [reflexivity|].
    repeat constructor; apply Hfmt; reflexivity.
  - apply (Hbad ["#fff"] "#ff" ["fff"]).
    + repeat constructor; apply Hfmt; reflexivity.
    + intros H%Hfmt. discriminate.
Defined.

Section custom_presets_facts.
Context {RGB ColorAlignment : Type} (from_hex : string → result RGB).
Implicit Types (cfg : Config ColorAlignment)
  (profiles acc : dict string (ColorProfile RGB)).

Lemma dict_set_fresh {V} (d : dict string V) k v :
  k ∉ d.*1 → dict_set d k v = d ++ [(k, v)].
Proof.
  induction d as [|[k' v'] d IH]; simpl; [done|].
  rewrite not_elem_of_cons. intros [Hne Hk].
  rewrite decide_False by done. by rewrite IH.
Qed.

Lemma custom_presets_loop_ok items : ∀ acc profiles,
  NoDup (acc.*1 ++ items.*1) →
  Forall2 (builds from_hex) items profiles →
  for_each (custom_preset_step from_hex) items acc = Ok (acc ++ profiles).
Proof.
  induction items as [|[k cs] items IH]; intros acc profiles Hnd Hall.
  - apply Forall2_nil_inv_l in Hall as ->. simpl. by rewrite app_nil_r.
  - apply Forall2_cons_inv_l in Hall as ([k' p] & profiles' & [Hk Hp] & Hall & ->).
    simpl in *. subst k'. rewrite Hp. simpl.
    apply NoDup_app in Hnd as (Hacc & Hdisj & Hitems).
    apply NoDup_cons in Hitems as [Hk Hitems].
    rewrite dict_set_fresh by (intros Hin; apply (Hdisj _ Hin); left).
    rewrite (IH _ profiles'); [by rewrite <- app_assoc| |done].
    rewrite fmap_app. simpl. rewrite <- app_assoc. simpl.
    apply NoDup_app. split_and!; [done| |by apply NoDup_cons].
    intros x Hx. apply Hdisj in Hx. done.
Qed.

Lemma custom_presets_loop_error pre key cs post err : ∀ acc,
  Forall (fun item => ∃ p, build_hex_color_profile from_hex item.2 = Ok p) pre →
  build_hex_color_profile from_hex cs = Raise (ValueError err) →
  for_each (custom_preset_step from_hex) (pre ++ (key, cs) :: post) acc
  = Raise (ValueError (key_error key err)).
Proof.
  intros acc Hpre Hcs. revert acc.
  induction Hpre as [|[k c] pre [p Hp] _ IH]; intros acc; simpl in *.
  - by rewrite Hcs.
  - rewrite Hp. simpl. apply IH.
Qed.

(** C4 (amended).  Without custom presets the result is the empty mapping.
    When every entry builds, the result holds one profile per entry, under
    the entry's key and in the order of the entries.  When an entry contains
    a string that is not a hex color and every entry before it builds, the
    call fails with a [ValueError] whose message names the key of that entry
    and the first offending string; no mapping is returned. *)
Theorem custom_preset_profiles_first_invalid cfg :
  (custom_presets cfg = None ∨ custom_presets cfg = Some [] →
     custom_preset_profiles from_hex cfg = Ok [])
  ∧ (∀ profiles,
       NoDup (custom_presets_items cfg).*1 →
       Forall2 (builds from_hex) (custom_presets_items cfg) profiles →
       custom_preset_profiles from_hex cfg = Ok profiles)
  ∧ (∀ pre key post c_pre c c_post,
       custom_presets_items cfg = pre ++ (key, c_pre ++ c :: c_post) :: post →
       Forall (fun item => ∃ p, build_hex_color_profile from_hex item.2 = Ok p) pre →
       Forall hex_literal_format c_pre → ¬ hex_literal_format c →
       custom_preset_profiles from_hex cfg
       = Raise (ValueError (key_error key ("invalid hex color: " +:+ c)))).
Proof.
  unfold custom_preset_profiles. split_and!.
  - unfold custom_presets_items. by intros [-> | ->].
  - intros profiles Hnd Hall.
    by rewrite (custom_presets_loop_ok _ [] profiles).
  - intros pre key post c_pre c c_post -> Hpre Hcpre Hc.
    apply custom_presets_loop_error; [done|]. by apply build_invalid.
Qed.

End custom_presets_facts.

Lemma custom_preset_profiles_first_invalid_witness :
  custom_preset_profiles ColorUtil.from_hex (ColorUtil.config_with None) = Ok []
  ∧ custom_preset_profiles ColorUtil.from_hex
      (ColorUtil.config_with
         (Some [("mine", ["#B57FDD"; "#FFFFFF"; "#49821E"]);
                ("broken", ["#fff"; "fff"]);
                ("late", ["#ff"])]))
    = Raise (ValueError
               ("failed to validate custom preset key " +:+ str_of_char dquote
                +:+ "broken" +:+ str_of_char dquote
                +:+ ": invalid hex color: fff")).
Proof.
  split.
  - destruct (custom_preset_profiles_first_invalid ColorUtil.from_hex
                (ColorUtil.config_with None)) as (Hnone & _ & _).
    apply Hnone. by left.
  - destruct (custom_preset_profiles_first_invalid ColorUtil.from_hex
                (ColorUtil.config_with
                   (Some [("mine", ["#B57FDD"; "#FFFFFF"; "#49821E"]);
                          ("broken", ["#fff"; "fff"]);
                          ("late", ["#ff"])]))) as (_ & _ & Hbad).
    apply (Hbad [("mine", ["#B57FDD"; "#FFFFFF"; "#49821E"])] "broken"
                [("late", ["#ff"])] ["#fff"] "fff" []).
    + reflexivity.
    + repeat constructor. by eexists.
    + repeat constructor. by apply valid_hex_color_format.
    + intros H%valid_hex_color_format. discriminate.
Defined.

(** C4 as stated fails: an entry with an invalid color does not always lead
    to a [ValueError] naming its key.  An earlier entry with an empty color
    list passes validation and stops the call with the constructor's
    [IndexError], which is not caught. *)
Lemma custom_preset_profiles_counterexample :
  let cfg := ColorUtil.config_with (Some [("empty", []); ("broken", ["fff"])]) in
  valid_hex_color "fff" = false
  ∧ custom_preset_profiles ColorUtil.from_hex cfg = Raise IndexError
  ∧ ∀ msg, custom_preset_profiles ColorUtil.from_hex cfg ≠ Raise (ValueError msg).
Proof. split_and!; [reflexivity | reflexivity | discriminate]. Qed.

(** ** Claims about the palette registry *)

(** C2, on the registry as written.  The entries [girlflux] and
    [genderflux] are written without the leading [#]: their strings are not
    hex color literals.  Every string of every other entry is one. *)
Theorem registry_hex_literals :
  (∀ name l c,
     (name, l) ∈ PRESET_LITERALS → c ∈ literal_hex l →
     hex_literal_format c ↔ name ∉ ["girlflux"; "genderflux"])
  ∧ ("girlflux",
     Plain ["f9e6d7"; "f2526c"; "bf0311"; "e9c587"; "bf0311"; "f2526c"; "f9e6d7"])
    ∈ PRESET_LITERALS
  ∧ ¬ hex_literal_format "f9e6d7".
Proof.
  split_and!.
  - intros name l c Hl Hc. rewrite <- valid_hex_color_format.
    assert (forallb (fun kl : string * preset_literal =>
              forallb (fun c => Bool.eqb (valid_hex_color c)
                         (negb (bool_decide (kl.1 ∈ ["girlflux"; "genderflux"]))))
                      (literal_hex kl.2))
              PRESET_LITERALS = true) as Hall by (vm_compute; reflexivity).
    rewrite forallb_forall in Hall.
    apply list_elem_of_In, Hall in Hl. simpl in Hl.
    rewrite forallb_forall in Hl. apply list_elem_of_In, Hl in Hc.
    apply Bool.eqb_prop in Hc. rewrite Hc, negb_true_iff, bool_decide_eq_false.
    done.
  - apply list_elem_of_In. vm_compute. tauto.
  - intros H%valid_hex_color_format. discriminate.
Qed.

Lemma registry_hex_literals_witness :
  hex_literal_format "#E50000" ∧ ¬ hex_literal_format "f47694".
Proof.
  destruct registry_hex_literals as (Hall & _ & _). split.
  - apply (Hall "rainbow"
             (Plain ["#E50000"; "#FF8D00"; "#FFEE00"; "#028121"; "#004CFF"; "#770088"])).
    + apply list_elem_of_In. vm_compute. tauto.
    + left.
    + intros Hin. apply list_elem_of_In in Hin. vm_compute in Hin.
      destruct Hin as [|[|[]]]; discriminate.
  - intros Hfmt.
    apply (Hall "genderflux"
             (Plain ["f47694"; "f2a2b9"; "cecece"; "7ce0f7"; "3ecdf9"; "fff48d"]))
      in Hfmt.
    + apply Hfmt. right. left.
    + apply list_elem_of_In. vm_compute. tauto.
    + left.
Defined.

(** ** Claims about the launcher *)

Section launcher_facts.
Context {Path : Type} (joinpath : Path → string → Path)
  (path_str : Path → string) (SRC : Path).
Implicit Types env : Env Path.

Lemma str_truthy_String c s : str_truthy (String c s) = true.
Proof. unfold str_truthy. by rewrite bool_decide_false. Qed.

Lemma str_truthy_empty s : str_truthy s = false ↔ s = EmptyString.
Proof.
  unfold str_truthy. rewrite negb_false_iff. apply bool_decide_eq_true.
Qed.

Lemma reason_macos_truthy v : str_truthy (REASON_MACOS v) = true.
Proof. apply str_truthy_String. Qed.

(** The platform part of the decision on a supported platform. *)
Lemma fallback_reason_supported env :
  platform_supported env →
  fallback_reason joinpath SRC env
  = Ok (if path_exists env (rust_executable joinpath SRC env) then None
        else Some REASON_MISSING).
Proof.
  intros [Hwin Hmac]. unfold fallback_reason.
  destruct (bool_decide (system env = "Windows") && (windows_major env <? 10))
    eqn:Hw.
  { destruct Hwin. apply andb_true_iff in Hw as [Hs Hv].
    apply bool_decide_eq_true in Hs. split; [done|lia]. }
  clear Hw. destruct (bool_decide (system env = "Darwin")) eqn:Hd; simpl.
  - apply bool_decide_eq_true in Hd.
    destruct (Hmac Hd) as [Hempty | (v & Hv & Hlt)].
    + rewrite Hempty. simpl. by destruct (path_exists env _).
    + destruct (str_truthy (mac_ver env)); simpl.
      * rewrite Hv. simpl. rewrite Hlt. simpl. by destruct (path_exists env _).
      * by destruct (path_exists env _).
  - by destruct (path_exists env _).
Qed.

(** C5.  The decision of the launcher, row by row: Windows below 10 falls
    back with the Windows reason; otherwise macOS below 10.12 falls back
    with the macOS reason; otherwise a missing executable falls back with
    the missing-binary reason; otherwise the process is replaced by the
    executable, which receives the command-line arguments unchanged. *)
Theorem launcher_decision env :
  (windows_below_10 env →
     fallback_reason joinpath SRC env = Ok (Some REASON_WINDOWS)
     ∧ run_rust joinpath path_str SRC env
       = Returns (warning env REASON_WINDOWS ++ [RunPy]))
  ∧ (macos_below_10_12 env →
     fallback_reason joinpath SRC env = Ok (Some (REASON_MACOS (mac_ver env)))
     ∧ run_rust joinpath path_str SRC env
       = Returns (warning env (REASON_MACOS (mac_ver env)) ++ [RunPy]))
  ∧ (platform_supported env → ¬ binary_present joinpath SRC env →
     fallback_reason joinpath SRC env = Ok (Some REASON_MISSING)
     ∧ run_rust joinpath path_str SRC env
       = Returns (warning env REASON_MISSING ++ [RunPy]))
  ∧ (platform_supported env → binary_present joinpath SRC env →
     fallback_reason joinpath SRC env = Ok None
     ∧ run_rust joinpath path_str SRC env
       = let pd := path_str (rust_executable joinpath SRC env) in
         Execv pd (pd :: drop 1 (sys_argv env))).
Proof.
  split_and!.
  - intros [Hs Hv].
    assert (fallback_reason joinpath SRC env = Ok (Some REASON_WINDOWS)) as Hr.
    { unfold fallback_reason. rewrite bool_decide_true by done.
      by rewrite (proj2 (Z.ltb_lt _ _) Hv). }
    split; [done|]. unfold run_rust. by rewrite Hr.
  - intros (Hs & Hne & v & Hv & Hlt).
    assert (fallback_reason joinpath SRC env
            = Ok (Some (REASON_MACOS (mac_ver env)))) as Hr.
    { unfold fallback_reason. rewrite Hs. simpl.
      destruct (str_truthy (mac_ver env)) eqn:Ht;
        [|by apply str_truthy_empty in Ht].
      rewrite Hv. simpl. by rewrite Hlt. }
    split; [done|]. unfold run_rust. by rewrite Hr.
  - intros Hsup Hbin. unfold binary_present in Hbin.
    apply not_true_is_false in Hbin.
    pose proof (fallback_reason_supported env Hsup) as Hr. rewrite Hbin in Hr.
    split; [done|]. unfold run_rust. by rewrite Hr.
  - intros Hsup Hbin. unfold binary_present in Hbin.
    pose proof (fallback_reason_supported env Hsup) as Hr. rewrite Hbin in Hr.
    split; [done|]. unfold run_rust. by rewrite Hr.
Qed.

(** C10.  On Darwin with an empty version string the version is not
    compared and the macOS reason is not given: the launcher replaces the
    process when the executable exists, and falls back with the
    missing-binary reason when it does not. *)
Theorem launcher_darwin_empty_version env :
  system env = "Darwin" → mac_ver env = EmptyString →
  fallback_reason joinpath SRC env
  ≠ Ok (Some (REASON_MACOS (mac_ver env)))
  ∧ fallback_reason joinpath SRC env
    = Ok (if path_exists env (rust_executable joinpath SRC env) then None
          else Some REASON_MISSING)
  ∧ run_rust joinpath path_str SRC env
    = if path_exists env (rust_executable joinpath SRC env)
      then let pd := path_str (rust_executable joinpath SRC env) in
           Execv pd (pd :: drop 1 (sys_argv env))
      else Returns (warning env REASON_MISSING ++ [RunPy]).
Proof.
  intros Hs Hv.
  assert (fallback_reason joinpath SRC env
          = Ok (if path_exists env (rust_executable joinpath SRC env) then None
                else Some REASON_MISSING)) as Hr.
  { apply fallback_reason_supported. split; [|by left].
    intros [Hw _]. by rewrite Hs in Hw. }
  split_and!; [|done|].
  - rewrite Hr. by destruct (path_exists env _).
  - unfold run_rust. rewrite Hr. by destruct (path_exists env _).
Qed.

End launcher_facts.

Lemma launcher_decision_witness :
  run_rust Posix.joinpath Posix.path_str Posix.SRC (Posix.env "Windows" "" 6 true)
  = Returns [Printc (REASON_WINDOWS +:+ str_of_char "010" +:+ SUPPRESS_HINT); RunPy]
  ∧ run_rust Posix.joinpath Posix.path_str Posix.SRC
      (Posix.env "Darwin" "10.11.6" 0 true)
    = Returns [Printc (REASON_MACOS "10.11.6" +:+ str_of_char "010" +:+ SUPPRESS_HINT);
               RunPy]
  ∧ run_rust Posix.joinpath Posix.path_str Posix.SRC (Posix.env "Linux" "" 0 false)
    = Returns [Printc (REASON_MISSING +:+ str_of_char "010" +:+ SUPPRESS_HINT); RunPy]
  ∧ run_rust Posix.joinpath Posix.path_str Posix.SRC
      (Posix.env "Darwin" "14.5" 0 true)
    = Execv "/opt/hyfetch/rust/hyfetch"
            ["/opt/hyfetch/rust/hyfetch"; "--preset"; "rainbow"].
Proof.
  split_and!.
  - destruct (launcher_decision Posix.joinpath Posix.path_str Posix.SRC
                (Posix.env "Windows" "" 6 true)) as (Hrow & _).
    apply Hrow. split; [reflexivity | simpl; lia].
  - destruct (launcher_decision Posix.joinpath Posix.path_str Posix.SRC
                (Posix.env "Darwin" "10.11.6" 0 true)) as (_ & Hrow & _).
    apply Hrow. split_and!; [reflexivity | discriminate |].
    exists [10; 11; 6]. split; reflexivity.
  - destruct (launcher_decision Posix.joinpath Posix.path_str Posix.SRC
                (Posix.env "Linux" "" 0 false)) as (_ & _ & Hrow & _).
    apply Hrow.
    + split; [intros [? _]; discriminate | discriminate].
    + discriminate.
  - destruct (launcher_decision Posix.joinpath Posix.path_str Posix.SRC
                (Posix.env "Darwin" "14.5" 0 true)) as (_ & _ & _ & Hrow).
    apply Hrow.
    + split; [intros [? _]; discriminate | intros _; right].
      exists [14; 5]. split; reflexivity.
    + reflexivity.
Defined.

Lemma launcher_darwin_empty_version_witness :
  run_rust Posix.joinpath Posix.path_str Posix.SRC (Posix.env "Darwin" "" 0 true)
  = Execv "/opt/hyfetch/rust/hyfetch"
          ["/opt/hyfetch/rust/hyfetch"; "--preset"; "rainbow"]
  ∧ run_rust Posix.joinpath Posix.path_str Posix.SRC (Posix.env "Darwin" "" 0 false)
    = Returns [Printc (REASON_MISSING +:+ str_of_char "010" +:+ SUPPRESS_HINT); RunPy].
Proof.
  split.
  - apply (launcher_darwin_empty_version Posix.joinpath Posix.path_str Posix.SRC
             (Posix.env "Darwin" "" 0 true)); reflexivity.
  - apply (launcher_darwin_empty_version Posix.joinpath Posix.path_str Posix.SRC
             (Posix.env "Darwin" "" 0 false)); reflexivity.
Defined.

(** ** Claims about lightness and de-duplication *)

Section light_facts.
Context {RGB : Type} (from_hex : string → result RGB)
  (rgb_set_light : RGB → float → option bool → option bool → RGB)
  (rgb_overlay : RGB → RGB → float → RGB)
  (GLOBAL_CFG : GlobalConfig) (str_lower : string → string).

(** C7.  [set_light_dl] is [overlay_dl] when [use_overlay] is set, and is
    [set_light_raw] otherwise, with the at-least clamp on a dark terminal
    and the at-most clamp on a light one.  [overlay_dl] overlays black on a
    light terminal and white on a dark one, with alpha
    [abs(light - 0.5) * 2]: 0 at 0.5, 0.5 at 0.25 and at 0.75, 1 at 0 and
    at 1. *)
Theorem set_light_dl_strategy (p : ColorProfile RGB) (light : float)
    (term : option string) :
  let t := str_lower (str_or term (light_dark GLOBAL_CFG)) in
  let alpha :=
    PrimFloat.mul (PrimFloat.abs (PrimFloat.sub light 0.5%float)) 2%float in
  (use_overlay GLOBAL_CFG = true →
     set_light_dl from_hex rgb_set_light rgb_overlay GLOBAL_CFG str_lower
       p light term
     = overlay_dl from_hex rgb_overlay GLOBAL_CFG str_lower p light term)
  ∧ (use_overlay GLOBAL_CFG = false → t = "dark" →
     set_light_dl from_hex rgb_set_light rgb_overlay GLOBAL_CFG str_lower
       p light term
     = set_light_raw from_hex rgb_set_light p light (Some true) None)
  ∧ (use_overlay GLOBAL_CFG = false → t = "light" →
     set_light_dl from_hex rgb_set_light rgb_overlay GLOBAL_CFG str_lower
       p light term
     = set_light_raw from_hex rgb_set_light p light None (Some true))
  ∧ (∀ black, t = "light" → from_hex "#000000" = Ok black →
     overlay_dl from_hex rgb_overlay GLOBAL_CFG str_lower p light term
     = overlay_raw from_hex rgb_overlay p black alpha)
  ∧ (∀ white, t = "dark" → from_hex "#FFFFFF" = Ok white →
     overlay_dl from_hex rgb_overlay GLOBAL_CFG str_lower p light term
     = overlay_raw from_hex rgb_overlay p white alpha)
  ∧ overlay_alpha light = alpha
  ∧ overlay_alpha 0.5%float = 0%float
  ∧ overlay_alpha 0.75%float = 0.5%float
  ∧ overlay_alpha 1%float = 1%float
  ∧ overlay_alpha 0.25%float = 0.5%float
  ∧ overlay_alpha 0%float = 1%float.
Proof.
  intros t alpha. split_and!; try reflexivity.
  - intros Hov. unfold set_light_dl. by rewrite Hov.
  - intros Hov Ht. unfold set_light_dl. rewrite Hov. fold t. by rewrite Ht.
  - intros Hov Ht. unfold set_light_dl. rewrite Hov. fold t. by rewrite Ht.
  - intros black Ht Hhex. unfold overlay_dl. fold t. rewrite Ht. simpl.
    by rewrite Hhex.
  - intros white Ht Hhex. unfold overlay_dl. fold t. rewrite Ht. simpl.
    by rewrite Hhex.
Qed.

End light_facts.

Lemma set_light_dl_strategy_witness :
  set_light_dl Symbolic.from_hex Symbolic.SetLight Symbolic.Overlay
    (Symbolic.config false "dark") lower Symbolic.queer 0.75%float None
  = Ok {| raw := None;
          colors := (fun c => Symbolic.SetLight c 0.75%float (Some true) None)
                    <$> colors Symbolic.queer |}
  ∧ set_light_dl Symbolic.from_hex Symbolic.SetLight Symbolic.Overlay
      (Symbolic.config false "dark") lower Symbolic.queer 0.75%float (Some "Light")
    = Ok {| raw := None;
            colors := (fun c => Symbolic.SetLight c 0.75%float None (Some true))
                      <$> colors Symbolic.queer |}
  ∧ set_light_dl Symbolic.from_hex Symbolic.SetLight Symbolic.Overlay
      (Symbolic.config true "light") lower Symbolic.queer 0.5%float None
    = Ok {| raw := None;
            colors := (fun c => Symbolic.Overlay c (Symbolic.FromHex "#000000") 0%float)
                      <$> colors Symbolic.queer |}
  ∧ set_light_dl Symbolic.from_hex Symbolic.SetLight Symbolic.Overlay
      (Symbolic.config true "light") lower Symbolic.queer 0.25%float (Some "dark")
    = Ok {| raw := None;
            colors := (fun c => Symbolic.Overlay c (Symbolic.FromHex "#FFFFFF") 0.5%float)
                      <$> colors Symbolic.queer |}
  ∧ set_light_dl Symbolic.from_hex Symbolic.SetLight Symbolic.Overlay
      (Symbolic.config true "dark") lower Symbolic.queer 0.75%float None
    = Ok {| raw := None;
            colors := (fun c => Symbolic.Overlay c (Symbolic.FromHex "#FFFFFF") 0.5%float)
                      <$> colors Symbolic.queer |}
  ∧ set_light_dl Symbolic.from_hex Symbolic.SetLight Symbolic.Overlay
      (Symbolic.config true "dark") lower Symbolic.queer 1%float (Some "light")
    = Ok {| raw := None;
            colors := (fun c => Symbolic.Overlay c (Symbolic.FromHex "#000000") 1%float)
                      <$> colors Symbolic.queer |}.
Proof.
  split_and!.
  - destruct (set_light_dl_strategy Symbolic.from_hex Symbolic.SetLight
                Symbolic.Overlay (Symbolic.config false "dark") lower
                Symbolic.queer 0.75%float None) as (_ & Hdark & _).
    rewrite Hdark; reflexivity.
  - destruct (set_light_dl_strategy Symbolic.from_hex Symbolic.SetLight
                Symbolic.Overlay (Symbolic.config false "dark") lower
                Symbolic.queer 0.75%float (Some "Light")) as (_ & _ & Hlight & _).
    rewrite Hlight; reflexivity.
  - destruct (set_light_dl_strategy Symbolic.from_hex Symbolic.SetLight
                Symbolic.Overlay (Symbolic.config true "light") lower
                Symbolic.queer 0.5%float None) as (Hov & _ & _ & Hblack & _).
    rewrite Hov by reflexivity.
    rewrite (Hblack (Symbolic.FromHex "#000000")); reflexivity.
  - destruct (set_light_dl_strategy Symbolic.from_hex Symbolic.SetLight
                Symbolic.Overlay (Symbolic.config true "light") lower
                Symbolic.queer 0.25%float (Some "dark"))
      as (Hov & _ & _ & _ & Hwhite & _).
    rewrite Hov by reflexivity.
    rewrite (Hwhite (Symbolic.FromHex "#FFFFFF")); reflexivity.
  - destruct (set_light_dl_strategy Symbolic.from_hex Symbolic.SetLight
                Symbolic.Overlay (Symbolic.config true "dark") lower
                Symbolic.queer 0.75%float None)
      as (Hov & _ & _ & _ & Hwhite & _).
    rewrite Hov by reflexivity.
    rewrite (Hwhite (Symbolic.FromHex "#FFFFFF")); reflexivity.
  - destruct (set_light_dl_strategy Symbolic.from_hex Symbolic.SetLight
                Symbolic.Overlay (Symbolic.config true "dark") lower
                Symbolic.queer 1%float (Some "light"))
      as (Hov & _ & _ & Hblack & _).
    rewrite Hov by reflexivity.
    rewrite (Hblack (Symbolic.FromHex "#000000")); reflexivity.
Defined.

Section unique_facts.
Context `{Countable A}.
Implicit Types (l pre suf : list A) (seen : gset A).

Lemma remove_duplicates_seen_elem l : ∀ seen x,
  x ∈ remove_duplicates_seen seen l ↔ x ∈ l ∧ x ∉ seen.
Proof.
  induction l as [|y l IH]; intros seen x; simpl.
  - set_solver.
  - case_decide as Hy.
    + rewrite IH. set_solver.
    + rewrite elem_of_cons, IH. destruct (decide (x = y)); set_solver.
Qed.

Lemma remove_duplicates_seen_NoDup l : ∀ seen,
  NoDup (remove_duplicates_seen seen l).
Proof.
  induction l as [|y l IH]; intros seen; simpl.
  - constructor.
  - case_decide as Hy; [apply IH|].
    constructor; [|apply IH].
    rewrite remove_duplicates_seen_elem. set_solver.
Qed.

(** With [seen] holding what came before, the loop keeps the elements that
    do not occur earlier in the whole list. *)
Lemma remove_duplicates_seen_first suf : ∀ pre seen,
  (∀ y, y ∈ seen ↔ y ∈ pre) →
  remove_duplicates_seen seen suf
  = List.concat (imap (fun i x =>
      if decide (x ∈ take (length pre + i) (pre ++ suf)) then [] else [x]) suf).
Proof.
  induction suf as [|x suf IH]; intros pre seen Hseen; [done|].
  rewrite imap_cons. cbn [remove_duplicates_seen List.concat].
  rewrite Nat.add_0_r, take_app_length.
  assert (∀ f : nat → A → list A,
    (∀ i y, f i y = if decide (y ∈ take (length (pre ++ [x]) + i)
                                     ((pre ++ [x]) ++ suf)) then [] else [y]) →
    imap f suf = imap (fun i y =>
      if decide (y ∈ take (length (pre ++ [x]) + i) ((pre ++ [x]) ++ suf))
      then [] else [y]) suf) as Himap.
  { intros f Hf. apply imap_ext. intros i y _. apply Hf. }
  rewrite (Himap _); cycle 1.
  { intros i y. simpl. rewrite length_app, <- app_assoc. simpl.
    by replace (length pre + S i)%nat with (length pre + 1 + i)%nat by lia. }
  destruct (decide (x ∈ seen)) as [Hx|Hx].
  - rewrite decide_True by (by apply Hseen). simpl.
    apply IH. intros y. rewrite elem_of_app, list_elem_of_singleton, <- Hseen.
    set_solver.
  - rewrite decide_False by (by rewrite <- Hseen). simpl. f_equal.
    apply IH. intros y. rewrite elem_of_app, list_elem_of_singleton, <- Hseen.
    set_solver.
Qed.

Lemma remove_duplicates_first l : remove_duplicates l = first_occurrences l.
Proof.
  unfold remove_duplicates, first_occurrences.
  rewrite (remove_duplicates_seen_first l []); [done|]. set_solver.
Qed.

End unique_facts.

Section unique_colors_facts.
Context `{Countable RGB} (from_hex : string → result RGB).

(** C8.  On a profile the constructor has built, [unique_colors] returns a
    new profile whose colors are the first occurrences of the colors of the
    profile, in their order: no color twice, and the same colors as before.
    Colors A, B, A, C give A, B, C.  (The profile is an argument of the
    function and is not part of what it returns: it is left as it was.) *)
Theorem unique_colors_first_occurrences cs (p : ColorProfile RGB) :
  ColorProfile_init from_hex cs = Ok p →
  unique_colors from_hex p
  = Ok {| raw := None; colors := first_occurrences (colors p) |}
  ∧ NoDup (first_occurrences (colors p))
  ∧ (∀ c, c ∈ first_occurrences (colors p) ↔ c ∈ colors p)
  ∧ (∀ a b c : RGB, a ≠ b → a ≠ c → b ≠ c →
       remove_duplicates [a; b; a; c] = [a; b; c]).
Proof.
  intros Hp%init_nonempty. rewrite <- remove_duplicates_first. split_and!.
  - unfold unique_colors. apply init_rgb.
    destruct (colors p) as [|c l] eqn:Hc; [done|].
    unfold remove_duplicates. simpl. by rewrite decide_False by set_solver.
  - apply remove_duplicates_seen_NoDup.
  - intros c. unfold remove_duplicates.
    rewrite remove_duplicates_seen_elem. set_solver.
  - intros a b c Hab Hac Hbc. unfold remove_duplicates. simpl.
    rewrite decide_False by set_solver.
    rewrite decide_False by set_solver.
    rewrite decide_True by set_solver.
    by rewrite decide_False by set_solver.
Qed.

End unique_colors_facts.

Lemma unique_colors_first_occurrences_witness :
  unique_colors ColorUtil.from_hex
    {| raw := Some ["#FFD800"; "#FFD800"; "#7902AA"; "#FFD800"; "#FFD800"];
       colors := [(255, 216, 0); (255, 216, 0); (121, 2, 170);
                  (255, 216, 0); (255, 216, 0)] |}
  = Ok {| raw := None; colors := [(255, 216, 0); (121, 2, 170)] |}.
Proof.
  destruct (unique_colors_first_occurrences ColorUtil.from_hex
              (inl ["#FFD800"; "#FFD800"; "#7902AA"; "#FFD800"; "#FFD800"])
              {| raw := Some ["#FFD800"; "#FFD800"; "#7902AA"; "#FFD800"; "#FFD800"];
                 colors := [(255, 216, 0); (255, 216, 0); (121, 2, 170);
                            (255, 216, 0); (255, 216, 0)] |}
              ltac:(reflexivity)) as (Hu & _).
  rewrite Hu. reflexivity.
Defined.

(** ** Claims about [color_text] *)

Section color_text_facts.
Context {RGB : Type} (from_hex : string → result RGB)
  (to_ansi : RGB → bool → list N).
Implicit Types (p : ColorProfile RGB) (cols : list RGB) (txt : list N).

Lemma color_text_step_rendered txt cols fg so acc i t :
  txt !! i = Some t → (i < length cols)%nat →
  color_text_step to_ansi txt cols fg so acc (Z.of_nat i, t)
  = Ok (acc ++ rendered to_ansi txt cols fg so i t).
Proof.
  intros Ht Hi. unfold color_text_step, rendered.
  destruct (so && negb (bool_decide (t = SPACE))).
  - destruct i as [|j].
    + rewrite decide_False by lia. done.
    + rewrite decide_True by lia.
      destruct (lookup_lt_is_Some_2 txt j) as [prev Hprev].
      { apply lookup_lt_Some in Ht. lia. }
      replace (Z.of_nat (S j) - 1) with (Z.of_nat j) by lia.
      rewrite (getitem_lookup _ _ _ Hprev). simpl. rewrite Hprev.
      destruct (decide (prev = SPACE)) as [->|Hne].
      * rewrite !bool_decide_true by done. by rewrite <- app_assoc.
      * rewrite !bool_decide_false by congruence. done.
  - destruct (lookup_lt_is_Some_2 cols i Hi) as [c Hc].
    rewrite (getitem_lookup _ _ _ Hc). simpl.
    unfold color_at. by rewrite Hc.
Qed.

Lemma color_text_loop txt cols fg so suf : ∀ pre acc,
  txt = pre ++ suf → (length txt ≤ length cols)%nat →
  for_each (color_text_step to_ansi txt cols fg so)
           (imap (fun i x => (Z.of_nat (length pre + i), x)) suf) acc
  = Ok (acc ++ List.concat (imap (fun i => rendered to_ansi txt cols fg so
                                             (length pre + i)) suf)).
Proof.
  induction suf as [|t suf IH]; intros pre acc Htxt Hlen.
  - simpl. by rewrite app_nil_r.
  - rewrite !imap_cons. cbn [for_each List.concat]. rewrite Nat.add_0_r.
    rewrite color_text_step_rendered; cycle 1.
    { rewrite Htxt. by rewrite list_lookup_middle. }
    { rewrite Htxt, length_app in Hlen. simpl in Hlen. lia. }
    simpl.
    rewrite (imap_ext _ (fun i x => (Z.of_nat (length (pre ++ [t]) + i), x)));
      cycle 1.
    { intros i x _. simpl. rewrite length_app. simpl. f_equal. lia. }
    rewrite (IH (pre ++ [t])); [|by rewrite <- app_assoc|done].
    rewrite <- app_assoc. do 4 f_equal.
    apply imap_ext. intros i x _. simpl. rewrite length_app. simpl.
    f_equal. lia.
Qed.

Lemma color_text_rendered p txt fg so :
  colors p ≠ [] →
  color_text to_ansi p txt fg so
  = Ok (rendered_text to_ansi txt
          (expand (colors p) (policy_weights (len (colors p)) (len txt)))
          fg so ++ RESET).
Proof.
  intros Hne. pose proof (with_length_expand p (len txt) Hne) as Hcols.
  unfold color_text. rewrite Hcols. simpl. unfold enumerate.
  rewrite (color_text_loop txt _ fg so txt [] []); [done|done|].
  apply with_length_len in Hcols; [|unfold len; lia].
  unfold len in *. lia.
Qed.

(** C6.  On a profile the constructor has built, [color_text] returns, for
    every text and every mode, a text that ends with the reset sequence
    [ESC[39;49m].  Before it comes what is written for each character in
    turn.  In space-only mode a space is written after the color of its
    position; any other character is written without a color, after a
    reset sequence when the character before it is a space.  Otherwise
    every character is written after the color of its position.  (The
    text is a list of code points; 27 is ESC and 32 the space.) *)
Theorem color_text_reset cs p txt (fg so : bool) :
  ColorProfile_init from_hex cs = Ok p →
  let reset := [27; 91; 51; 57; 59; 52; 57; 109]%N in
  ∃ cols,
    with_length p (len txt) = Ok cols
    ∧ length cols = length txt
    ∧ color_text to_ansi p txt fg so
      = Ok (rendered_text to_ansi txt cols fg so ++ reset)
    ∧ (∀ i t, txt !! i = Some t →
         rendered to_ansi txt cols fg true i t
         = if bool_decide (t = 32%N)
           then color_at to_ansi cols fg i ++ [32%N]
           else if follows_space txt i then reset ++ [t]
           else [t])
    ∧ (∀ i t, txt !! i = Some t →
         rendered to_ansi txt cols fg false i t
         = color_at to_ansi cols fg i ++ [t])
    ∧ (∀ i, follows_space txt i = true
            ↔ ∃ j, i = S j ∧ txt !! j = Some 32%N)
    ∧ (∀ i, (i < length txt)%nat →
         ∃ c, cols !! i = Some c ∧ color_at to_ansi cols fg i = to_ansi c fg).
Proof.
  intros Hne%init_nonempty reset.
  pose proof (with_length_expand p (len txt) Hne) as Hcols.
  eexists. split; [exact Hcols|].
  assert (length (expand (colors p) (policy_weights (len (colors p)) (len txt)))
          = length txt) as Hlen.
  { apply Nat2Z.inj. apply (with_length_len p); [unfold len; lia | done]. }
  split_and!; [done| | | | |].
  - by apply color_text_rendered.
  - intros i t _. unfold rendered. change SPACE with 32%N.
    destruct (bool_decide (t = 32%N)) eqn:Ht; simpl.
    + by apply bool_decide_eq_true in Ht as ->.
    + by destruct (follows_space txt i).
  - done.
  - intros [|j]; simpl.
    + split; [done|]. by intros (j & ? & _).
    + rewrite bool_decide_eq_true. split; [by exists j|].
      by intros (k & [= ->] & ?).
  - intros i Hi.
    destruct (lookup_lt_is_Some_2
                (expand (colors p) (policy_weights (len (colors p)) (len txt))) i)
      as [c Hc]; [lia|].
    exists c. split; [done|]. unfold color_at. by rewrite Hc.
Qed.

End color_text_facts.

Lemma color_text_reset_witness :
  ∃ cols,
    with_length ColorUtil.queer 4 = Ok cols
    ∧ cols = [(181, 127, 221); (255, 255, 255); (255, 255, 255); (73, 130, 30)]
    ∧ color_text ColorUtil.to_ansi_text ColorUtil.queer [233; 32; 32; 98]%N
        false true
      = Ok ([233]
            ++ text_of (String "027" "[48;2;255;255;255m") ++ [32]
            ++ text_of (String "027" "[48;2;255;255;255m") ++ [32]
            ++ [27; 91; 51; 57; 59; 52; 57; 109] ++ [98]
            ++ [27; 91; 51; 57; 59; 52; 57; 109])%N
    ∧ color_text ColorUtil.to_ansi_text ColorUtil.queer [233; 98]%N true false
      = Ok (text_of (String "027" "[38;2;181;127;221m") ++ [233]
            ++ text_of (String "027" "[38;2;73;130;30m") ++ [98]
            ++ [27; 91; 51; 57; 59; 52; 57; 109])%N.
Proof.
  destruct (color_text_reset ColorUtil.from_hex ColorUtil.to_ansi_text
              (inl ["#B57FDD"; "#FFFFFF"; "#49821E"]) ColorUtil.queer
              [233; 32; 32; 98]%N false true ltac:(reflexivity))
    as (cols & Hcols & _ & Htext & _).
  exists cols. split_and!; [exact Hcols | | |].
  - injection Hcols as <-. reflexivity.
  - rewrite Htext. injection Hcols as <-. reflexivity.
  - destruct (color_text_reset ColorUtil.from_hex ColorUtil.to_ansi_text
                (inl ["#B57FDD"; "#FFFFFF"; "#49821E"]) ColorUtil.queer
                [233; 98]%N true false ltac:(reflexivity))
      as (cols2 & Hcols2 & _ & Htext2 & _).
    rewrite Htext2. injection Hcols2 as <-. reflexivity.
Defined.

(** * Further properties of the code *)

(** ** [with_weights] *)

Section with_weights_facts.
Context {RGB : Type}.
Implicit Types (p : ColorProfile RGB) (cs : list RGB) (ws : list Z).

Lemma getitem_beyond {A} (l : list A) (k : nat) :
  (length l ≤ k)%nat → getitem l (Z.of_nat k) = Raise IndexError.
Proof.
  intros Hk. unfold getitem, norm_index.
  by rewrite !decide_False by lia.
Qed.

Lemma with_weights_too_many cs ws : ∀ k,
  (k ≤ length cs)%nat → (length cs < k + length ws)%nat →
  mapM (fun iw : Z * Z => c ← getitem cs iw.1; Ok (repeat_list c iw.2))
       (imap (fun i x => (Z.of_nat (k + i), x)) ws)
  = Raise IndexError.
Proof.
  induction ws as [|w ws IH]; intros k Hk Hlen; simpl in *; [lia|].
  rewrite Nat.add_0_r.
  destruct (decide (k < length cs)%nat) as [Hlt|Hge].
  - destruct (lookup_lt_is_Some_2 cs k Hlt) as [c Hc].
    rewrite (getitem_lookup _ _ _ Hc). simpl.
    rewrite (imap_ext _ (fun i x => (Z.of_nat (S k + i), x)))
      by (intros; simpl; f_equal; lia).
    by rewrite IH by lia.
  - by rewrite getitem_beyond by lia.
Qed.

Lemma expand_length_clamped cs : ∀ ws,
  (length ws ≤ length cs)%nat →
  len (expand cs ws) = sumZ (Z.max 0 <$> ws).
Proof.
  unfold expand, len.
  induction cs as [|c cs IH]; intros [|w ws] Hl; try done.
  { simpl in Hl. lia. }
  change (Z.of_nat (length (repeat_list c w
                            ++ List.concat (zip_with repeat_list cs ws)))
          = Z.max 0 w + sumZ (Z.max 0 <$> ws)).
  rewrite length_app, Nat2Z.inj_add, IH by (simpl in Hl; lia).
  unfold repeat_list. rewrite length_replicate. lia.
Qed.

(** X1.  [with_weights] raises [IndexError] when it is given more weights
    than the profile has colors.  Otherwise it returns each weighted color
    as often as its weight says, a weight below one giving no copy, and the
    colors beyond the last weight are left out; the length of the result is
    the sum of the weights, each counted as at least zero. *)
Theorem with_weights_bounds p ws :
  ((length ws ≤ length (colors p))%nat →
     with_weights p ws = Ok (expand (colors p) ws)
     ∧ len (expand (colors p) ws) = sumZ (Z.max 0 <$> ws))
  ∧ ((length (colors p) < length ws)%nat →
     with_weights p ws = Raise IndexError).
Proof.
  split.
  - intros Hl. split; [by apply with_weights_expand|].
    by apply expand_length_clamped.
  - intros Hl. unfold with_weights, enumerate.
    by rewrite (with_weights_too_many _ _ 0%nat) by (simpl; lia).
Qed.

End with_weights_facts.

Lemma with_weights_bounds_witness :
  with_weights ColorUtil.queer [2; -3]
  = Ok [(181, 127, 221); (181, 127, 221)]
  ∧ with_weights ColorUtil.queer [1; 1; 1; 1] = Raise IndexError.
Proof.
  split.
  - destruct (with_weights_bounds ColorUtil.queer [2; -3]) as [Hok _].
    destruct Hok as [Hok _]; [simpl; lia|]. rewrite Hok. reflexivity.
  - destruct (with_weights_bounds ColorUtil.queer [1; 1; 1; 1]) as [_ Hbad].
    apply Hbad. simpl. lia.
Defined.

(** ** [with_length]: how the weights are spread *)

Lemma tab_fmap n (g : Z → Z) f : g <$> tab n f = tab n (fun i => g (f i)).
Proof. unfold tab. by rewrite <- list_fmap_compose. Qed.

Lemma tab_reverse n f : reverse (tab n f) = tab n (fun i => f (n - 1 - i)%nat).
Proof.
  apply list_eq. intros i. destruct (decide (i < n)%nat) as [Hi|Hi].
  - rewrite reverse_lookup by (by rewrite tab_length).
    rewrite tab_length, !tab_lookup by lia. do 2 f_equal. lia.
  - rewrite !lookup_ge_None_2; [done| |];
      rewrite ?length_reverse, tab_length; lia.
Qed.

(** A weight of the policy is the base weight or one more: the center and
    the borders never meet. *)
Lemma policy_weight_range n L i :
  0 < n → 0 <= i < n → L / n <= policy_weight n L i <= L / n + 1.
Proof.
  intros Hn Hi. unfold policy_weight. cbv zeta.
  pose proof (Z.mod_pos_bound L n Hn) as He.
  destruct (half_split (L mod n) ltac:(lia)) as (m & Hm & Hem & Hpar).
  destruct (half_split n ltac:(lia)) as (c & Hc & Hnc & Hparn).
  rewrite <- Hm, <- Hc. repeat case_decide; lia.
Qed.

Section spread_facts.
Context {RGB : Type}.
Implicit Types (p : ColorProfile RGB) (cs : list RGB) (ws : list Z).

Lemma colors_len_pos p : colors p ≠ [] → 0 < len (colors p).
Proof. unfold len. destruct (colors p); simpl; [done|lia]. Qed.

Lemma length_weights_Ok_nonempty p L ws :
  length_weights p L = Ok ws → colors p ≠ [].
Proof.
  intros Hws Hnil. revert Hws.
  unfold length_weights, floordiv, len. by rewrite Hnil.
Qed.

Lemma policy_weights_lookup n L (i : nat) :
  (i < Z.to_nat n)%nat →
  policy_weights n L !! i = Some (policy_weight n L (Z.of_nat i)).
Proof. intros Hi. rewrite policy_weights_tab. by apply tab_lookup. Qed.

Lemma policy_weights_range n L :
  0 < n → Forall (fun w => L / n <= w <= L / n + 1) (policy_weights n L).
Proof.
  intros Hn. unfold policy_weights. apply Forall_fmap, Forall_forall.
  intros i Hi%elem_of_seq. simpl. apply policy_weight_range; lia.
Qed.

Lemma expand_nonpos cs : ∀ ws,
  Forall (fun w => w <= 0) ws → expand cs ws = [].
Proof.
  unfold expand. induction cs as [|c cs IH]; intros ws Hws; [done|].
  destruct Hws as [|w ws Hw Hws]; [done|].
  change (repeat_list c w ++ List.concat (zip_with repeat_list cs ws) = []).
  rewrite IH by done. unfold repeat_list.
  by replace (Z.to_nat w) with 0%nat by lia.
Qed.

Lemma elem_of_expand cs : ∀ ws i c w,
  cs !! i = Some c → ws !! i = Some w → 0 < w → c ∈ expand cs ws.
Proof.
  unfold expand.
  induction cs as [|c' cs IH]; intros [|w' ws] i c w Hc Hw Hpos; try done.
  change (c ∈ repeat_list c' w' ++ List.concat (zip_with repeat_list cs ws)).
  apply elem_of_app. destruct i as [|i]; simplify_eq/=.
  - left. unfold repeat_list. apply elem_of_replicate. split; [done|lia].
  - right. by eapply IH.
Qed.

(** X2.  On a profile that has a color, a negative length gives the empty
    sequence: no exception, and no color. *)
Theorem with_length_negative p L :
  colors p ≠ [] → L < 0 → with_length p L = Ok [].
Proof.
  intros Hne HL. rewrite with_length_expand by done. f_equal.
  apply expand_nonpos.
  pose proof (colors_len_pos p Hne) as Hn.
  eapply Forall_impl; [by apply policy_weights_range|].
  intros w Hw. simpl in Hw.
  assert (L / len (colors p) < 0) by (apply Z.div_lt_upper_bound; lia). lia.
Qed.

(** X3.  The colors share the length evenly: every weight is [L // n] or
    one more, and the weights add up to [L].  When the length is at least
    the number of colors, every color of the profile occurs in the
    result. *)
Theorem with_length_even_spread p L :
  colors p ≠ [] →
  let n := len (colors p) in
  ∃ ws,
    length_weights p L = Ok ws
    ∧ length ws = length (colors p)
    ∧ sumZ ws = L
    ∧ Forall (fun w => L / n <= w <= L / n + 1) ws
    ∧ (n <= L → ∀ out c,
         with_length p L = Ok out → c ∈ colors p → c ∈ out).
Proof.
  intros Hne n. pose proof (colors_len_pos p Hne) as Hn. fold n in Hn.
  pose proof (length_weights_policy p L Hne) as Hws. fold n in Hws.
  exists (policy_weights n L).
  destruct (length_weights_sum _ _ _ Hws) as [Hsum Hlen].
  split_and!; [done..| |].
  - by apply policy_weights_range.
  - intros HL out c. rewrite with_length_expand by done. intros [= <-].
    intros [i Hi]%list_elem_of_lookup. fold n.
    pose proof (lookup_lt_Some _ _ _ Hi) as Hlt.
    eapply elem_of_expand; [done| |].
    + apply policy_weights_lookup. unfold n, len. lia.
    + pose proof (policy_weight_range n L (Z.of_nat i) Hn) as Hr.
      assert (1 <= L / n) by (apply Z.div_le_lower_bound; lia).
      unfold n, len in *. lia.
Qed.

(** X4.  The weights read the same from both ends exactly when the number
    of colors is odd or the remainder [L % n] is even: with an even number
    of colors and an odd remainder the extra unit of the center goes to
    index [n // 2], right of the middle. *)
Theorem length_weights_symmetric p L ws :
  length_weights p L = Ok ws →
  let n := len (colors p) in
  reverse ws = ws ↔ n mod 2 = 1 ∨ (L mod n) mod 2 = 0.
Proof.
  intros Hws n. pose proof (length_weights_Ok_nonempty _ _ _ Hws) as Hne.
  pose proof (colors_len_pos p Hne) as Hn. fold n in Hn.
  rewrite length_weights_policy in Hws by done. injection Hws as <-. fold n.
  rewrite policy_weights_tab, tab_reverse.
  pose proof (Z.mod_pos_bound L n Hn) as He.
  destruct (half_split (L mod n) ltac:(lia)) as (m & Hm & Hem & Hpar).
  destruct (half_split n ltac:(lia)) as (c & Hc & Hnc & Hparn).
  split.
  - intros Heq.
    destruct Hparn as [Heven|]; [|by left]. right.
    destruct Hpar as [|Hodd]; [done|]. exfalso.
    assert (c < Z.to_nat n)%nat as Hcn by lia.
    pose proof (f_equal (fun l => l !! c) Heq) as Hc'. simpl in Hc'.
    rewrite !tab_lookup in Hc' by done. injection Hc' as Hc'.
    revert Hc'. unfold policy_weight. cbv zeta. rewrite <- Hm, <- Hc.
    repeat case_decide; lia.
  - intros Hsym. apply tab_ext. intros i Hi.
    unfold policy_weight. cbv zeta. rewrite <- Hm, <- Hc.
    repeat case_decide; lia.
Qed.

Lemma expand_replicate cs k :
  expand cs (replicate (length cs) k)
  = List.concat ((fun c => replicate (Z.to_nat k) c) <$> cs).
Proof.
  unfold expand. induction cs as [|c cs IH]; [done|].
  change (repeat_list c k
          ++ List.concat (zip_with repeat_list cs (replicate (length cs) k))
          = replicate (Z.to_nat k) c
            ++ List.concat ((fun c => replicate (Z.to_nat k) c) <$> cs)).
  by rewrite IH.
Qed.

Lemma concat_replicate_once cs :
  List.concat ((fun c => replicate (Z.to_nat 1) c) <$> cs) = cs.
Proof.
  change (Z.to_nat 1) with 1%nat.
  induction cs as [|c l IH]; [done|].
  rewrite fmap_cons. cbn [List.concat replicate app]. f_equal. exact IH.
Qed.

Lemma concat_replicate_never cs :
  List.concat ((fun c => replicate (Z.to_nat 0) c) <$> cs) = [].
Proof.
  change (Z.to_nat 0) with 0%nat.
  induction cs as [|c l IH]; [done|].
  rewrite fmap_cons. cbn [List.concat replicate app]. exact IH.
Qed.

(** X5.  For a length that is a multiple [k * n] of the number of colors,
    the result is every color [k] times, in the order of the profile.  So
    the length [n] gives back the colors of the profile, and the length 0
    gives the empty sequence. *)
Theorem with_length_multiple p k :
  colors p ≠ [] →
  with_length p (k * len (colors p))
  = Ok (List.concat ((fun c => replicate (Z.to_nat k) c) <$> colors p))
  ∧ with_length p (len (colors p)) = Ok (colors p)
  ∧ with_length p 0 = Ok [].
Proof.
  intros Hne. pose proof (colors_len_pos p Hne) as Hn.
  assert (∀ k, with_length p (k * len (colors p))
               = Ok (List.concat ((fun c => replicate (Z.to_nat k) c)
                                  <$> colors p))) as Hk.
  { clear k. intros k. rewrite with_length_expand by done. f_equal.
    rewrite <- expand_replicate. f_equal.
    rewrite policy_weights_tab, tab_replicate. unfold len at 1.
    rewrite Nat2Z.id. apply tab_ext. intros i Hi.
    unfold policy_weight. cbv zeta.
    rewrite Z.div_mul, Z.mod_mul by lia.
    change (0 mod 2) with 0. change (0 / 2) with 0.
    unfold len. repeat case_decide; lia. }
  split_and!.
  - apply Hk.
  - rewrite <- (Z.mul_1_l (len (colors p))) at 1. rewrite Hk. f_equal.
    apply concat_replicate_once.
  - change 0 with (0 * len (colors p)). rewrite Hk. f_equal.
    apply concat_replicate_never.
Qed.

(** X6.  A text longer by the number of colors gives every color one more
    copy: the weights for [L + n] are the weights for [L], each plus
    one. *)
Theorem length_weights_period p L ws :
  length_weights p L = Ok ws →
  length_weights p (L + len (colors p)) = Ok ((fun w => w + 1) <$> ws).
Proof.
  intros Hws. pose proof (length_weights_Ok_nonempty _ _ _ Hws) as Hne.
  pose proof (colors_len_pos p Hne) as Hn.
  rewrite length_weights_policy in Hws by done. injection Hws as <-.
  rewrite length_weights_policy by done. f_equal.
  rewrite !policy_weights_tab, tab_fmap. apply tab_ext. intros i Hi.
  unfold policy_weight. cbv zeta.
  replace (L + len (colors p)) with (L + 1 * len (colors p)) by lia.
  rewrite Z.div_add, Z_mod_plus_full by lia. lia.
Qed.

End spread_facts.

Lemma with_length_negative_witness : with_length ColorUtil.queer (-7) = Ok [].
Proof. apply with_length_negative; [discriminate | lia]. Defined.

Lemma with_length_even_spread_witness :
  ∃ ws,
    length_weights ColorUtil.rainbow 20 = Ok ws
    ∧ length ws = 6%nat
    ∧ sumZ ws = 20
    ∧ Forall (fun w => 20 / 6 <= w <= 20 / 6 + 1) ws
    ∧ (6 <= 20 → ∀ out c,
         with_length ColorUtil.rainbow 20 = Ok out →
         c ∈ colors ColorUtil.rainbow → c ∈ out).
Proof.
  exact (with_length_even_spread ColorUtil.rainbow 20 ltac:(discriminate)).
Defined.

Lemma length_weights_symmetric_witness :
  reverse [3; 2; 2; 3] = [3; 2; 2; 3]
  ∧ reverse [1; 1; 2; 1] ≠ [1; 1; 2; 1].
Proof.
  split.
  - apply (length_weights_symmetric ColorUtil.nonbinary 10 [3; 2; 2; 3]);
      [reflexivity | right; reflexivity].
  - intros Hrev.
    apply (length_weights_symmetric ColorUtil.nonbinary 5 [1; 1; 2; 1]) in Hrev;
      [|reflexivity].
    destruct Hrev; discriminate.
Defined.

Lemma with_length_multiple_witness :
  with_length ColorUtil.queer 6
  = Ok [(181, 127, 221); (181, 127, 221); (255, 255, 255); (255, 255, 255);
        (73, 130, 30); (73, 130, 30)]
  ∧ with_length ColorUtil.queer 3 = Ok (colors ColorUtil.queer).
Proof.
  destruct (with_length_multiple ColorUtil.queer 2 ltac:(discriminate))
    as (Htwice & Hsame & _).
  split; [exact Htwice | exact Hsame].
Defined.

Lemma length_weights_period_witness :
  length_weights ColorUtil.nonbinary (10 + 4) = Ok [4; 3; 3; 4].
Proof.
  apply (length_weights_period ColorUtil.nonbinary 10 [3; 2; 2; 3]). reflexivity.
Defined.

(** ** [color_text] on a text without spaces *)

Lemma concat_singletons {A} (f : nat → A → list A) (l : list A) :
  (∀ i t, l !! i = Some t → f i t = [t]) →
  List.concat (imap f l) = l.
Proof.
  revert f. induction l as [|x l IH]; intros f Hf; [done|].
  rewrite imap_cons. cbn [List.concat].
  rewrite (Hf 0%nat x) by done. simpl. f_equal.
  apply IH. intros i t Hi. by apply (Hf (S i)).
Qed.

Section color_text_plain.
Context {RGB : Type} (from_hex : string → result RGB)
  (to_ansi : RGB → bool → list N).

(** X7.  In space-only mode a text without a space comes back as it is,
    followed by the reset sequence [ESC[39;49m]: no color is written.  The
    empty text gives the reset sequence alone, in every mode. *)
Theorem color_text_no_space cs (p : ColorProfile RGB) (txt : list N) fg :
  ColorProfile_init from_hex cs = Ok p →
  (32%N ∉ txt →
     color_text to_ansi p txt fg true
     = Ok (txt ++ [27; 91; 51; 57; 59; 52; 57; 109]%N))
  ∧ ∀ so, color_text to_ansi p [] fg so
          = Ok [27; 91; 51; 57; 59; 52; 57; 109]%N.
Proof.
  intros Hne%init_nonempty. split.
  - intros Hsp. rewrite color_text_rendered by done. do 2 f_equal.
    unfold rendered_text. apply concat_singletons.
    intros i t Ht. unfold rendered.
    rewrite bool_decide_false; cycle 1.
    { intros ->. apply Hsp. by eapply list_elem_of_lookup_2. }
    simpl. destruct i as [|j]; [done|]. simpl.
    rewrite bool_decide_false; [done|].
    intros Hj. apply Hsp. by eapply list_elem_of_lookup_2.
  - intros so. by rewrite color_text_rendered.
Qed.

End color_text_plain.

Lemma color_text_no_space_witness :
  color_text ColorUtil.to_ansi_text ColorUtil.queer
    [104; 121; 102; 233; 116; 99; 104]%N false true
  = Ok [104; 121; 102; 233; 116; 99; 104; 27; 91; 51; 57; 59; 52; 57; 109]%N.
Proof.
  destruct (color_text_no_space ColorUtil.from_hex ColorUtil.to_ansi_text
              (inl ["#B57FDD"; "#FFFFFF"; "#49821E"]) ColorUtil.queer
              [104; 121; 102; 233; 116; 99; 104]%N false ltac:(reflexivity))
    as [Hplain _].
  apply Hplain. intros Hin. apply list_elem_of_In in Hin. vm_compute in Hin.
  repeat destruct Hin as [Hin|Hin]; try discriminate. done.
Defined.

(** ** The transforms of a profile *)

Lemma expand_fmap {A B} (f : A → B) (cs : list A) : ∀ ws,
  expand (f <$> cs) ws = f <$> expand cs ws.
Proof.
  unfold expand. induction cs as [|c cs IH]; intros [|w ws]; try done.
  change (repeat_list (f c) w
          ++ List.concat (zip_with repeat_list (f <$> cs) ws)
          = f <$> (repeat_list c w
                   ++ List.concat (zip_with repeat_list cs ws))).
  rewrite fmap_app, IH. f_equal. unfold repeat_list.
  by rewrite fmap_replicate.
Qed.

Section transform_facts.
Context {RGB : Type} (from_hex : string → result RGB)
  (rgb_lighten : RGB → float → RGB)
  (rgb_set_light : RGB → float → option bool → option bool → RGB)
  (rgb_overlay : RGB → RGB → float → RGB).

Lemma init_rgb_fmap (f : RGB → RGB) (p : ColorProfile RGB) :
  ColorProfile_init from_hex (inr (f <$> colors p))
  = if decide (colors p = []) then Raise IndexError
    else Ok {| raw := None; colors := f <$> colors p |}.
Proof.
  case_decide as Hnil.
  - by rewrite Hnil.
  - apply init_rgb. by destruct (colors p).
Qed.

Lemma with_length_fmap (f : RGB → RGB) (p : ColorProfile RGB) L :
  with_length {| raw := None; colors := f <$> colors p |} L
  = (fun out : list RGB => f <$> out) <$> with_length p L.
Proof.
  destruct (decide (colors p = [])) as [Hnil|Hne].
  - unfold with_length, length_weights, floordiv, len. simpl.
    by rewrite Hnil.
  - rewrite !with_length_expand by (simpl; by destruct (colors p)).
    simpl. unfold len. rewrite length_fmap. by rewrite expand_fmap.
Qed.

(** X8.  [lighten], [set_light_raw] and [overlay_raw] raise [IndexError]
    on a profile without colors; otherwise they return a profile without
    hex strings whose colors are the transformed colors, one for one.  As
    the number of colors stays, [with_length] spreads the new profile as
    it spreads the old one: its result is the old result, transformed. *)
Theorem transforms_keep_layout (p : ColorProfile RGB) :
  (colors p = [] →
     (∀ m, lighten from_hex rgb_lighten p m = Raise IndexError)
     ∧ (∀ l a b, set_light_raw from_hex rgb_set_light p l a b = Raise IndexError)
     ∧ (∀ c a, overlay_raw from_hex rgb_overlay p c a = Raise IndexError))
  ∧ (colors p ≠ [] →
     (∀ m, lighten from_hex rgb_lighten p m
           = Ok {| raw := None;
                   colors := (fun c => rgb_lighten c m) <$> colors p |})
     ∧ (∀ l a b, set_light_raw from_hex rgb_set_light p l a b
           = Ok {| raw := None;
                   colors := (fun c => rgb_set_light c l a b) <$> colors p |})
     ∧ (∀ c a, overlay_raw from_hex rgb_overlay p c a
           = Ok {| raw := None;
                   colors := (fun x => rgb_overlay x c a) <$> colors p |}))
  ∧ (∀ (f : RGB → RGB) L,
       with_length {| raw := None; colors := f <$> colors p |} L
       = (fun out : list RGB => f <$> out) <$> with_length p L).
Proof.
  split_and!.
  - intros Hnil. unfold lighten, set_light_raw, overlay_raw.
    split_and!; intros; by rewrite init_rgb_fmap, decide_True.
  - intros Hne. unfold lighten, set_light_raw, overlay_raw.
    split_and!; intros; by rewrite init_rgb_fmap, decide_False.
  - intros f L. apply with_length_fmap.
Qed.

End transform_facts.

Lemma transforms_keep_layout_witness :
  lighten Symbolic.from_hex Symbolic.Lighten Symbolic.queer 0.5%float
  = Ok {| raw := None;
          colors := [Symbolic.Lighten (Symbolic.FromHex "#B57FDD") 0.5%float;
                     Symbolic.Lighten (Symbolic.FromHex "#FFFFFF") 0.5%float;
                     Symbolic.Lighten (Symbolic.FromHex "#49821E") 0.5%float] |}
  ∧ overlay_raw Symbolic.from_hex Symbolic.Overlay
      {| raw := None; colors := [] |} (Symbolic.FromHex "#000000") 0.5%float
    = Raise IndexError.
Proof.
  split.
  - destruct (transforms_keep_layout Symbolic.from_hex Symbolic.Lighten
                Symbolic.SetLight Symbolic.Overlay Symbolic.queer)
      as (_ & Hok & _).
    destruct Hok as (Hl & _); [discriminate|]. apply Hl.
  - destruct (transforms_keep_layout Symbolic.from_hex Symbolic.Lighten
                Symbolic.SetLight Symbolic.Overlay
                {| raw := None; colors := [] |}) as (Hnil & _).
    destruct Hnil as (_ & _ & Ho); [reflexivity|]. apply Ho.
Defined.

(** ** The terminal argument of [set_light_dl] and [overlay_dl] *)

Section terminal_facts.
Context {RGB : Type} (from_hex : string → result RGB)
  (rgb_set_light : RGB → float → option bool → option bool → RGB)
  (rgb_overlay : RGB → RGB → float → RGB)
  (GLOBAL_CFG : GlobalConfig) (str_lower : string → string).

Lemma str_or_same s : str_or (Some s) s = s.
Proof. unfold str_or. by destruct (str_truthy s). Qed.

Lemma str_or_empty s : str_or (Some EmptyString) s = s.
Proof. done. Qed.

Lemma str_or_nonempty s d : s ≠ EmptyString → str_or (Some s) d = s.
Proof. by destruct s. Qed.

(** X9.  Whatever the strategy, a terminal whose [lower()] is neither
    [light] nor [dark] stops [set_light_dl] and [overlay_dl] with an
    [AssertionError], before any color is touched.  The terminal of the
    configuration stands in for an argument that is [None] or the empty
    string, and for no other: with a non-empty argument the results are the
    same whatever terminal the configuration names. *)
Theorem set_light_dl_terminal (p : ColorProfile RGB) (light : float)
    (term : option string) :
  let t := str_lower (str_or term (light_dark GLOBAL_CFG)) in
  (t ≠ "light" → t ≠ "dark" →
     set_light_dl from_hex rgb_set_light rgb_overlay GLOBAL_CFG str_lower
       p light term
     = Raise AssertionError
     ∧ overlay_dl from_hex rgb_overlay GLOBAL_CFG str_lower p light term
       = Raise AssertionError)
  ∧ set_light_dl from_hex rgb_set_light rgb_overlay GLOBAL_CFG str_lower
      p light None
    = set_light_dl from_hex rgb_set_light rgb_overlay GLOBAL_CFG str_lower
        p light (Some (light_dark GLOBAL_CFG))
  ∧ set_light_dl from_hex rgb_set_light rgb_overlay GLOBAL_CFG str_lower
      p light (Some EmptyString)
    = set_light_dl from_hex rgb_set_light rgb_overlay GLOBAL_CFG str_lower
        p light None
  ∧ overlay_dl from_hex rgb_overlay GLOBAL_CFG str_lower p light None
    = overlay_dl from_hex rgb_overlay GLOBAL_CFG str_lower p light
        (Some (light_dark GLOBAL_CFG))
  ∧ overlay_dl from_hex rgb_overlay GLOBAL_CFG str_lower p light
      (Some EmptyString)
    = overlay_dl from_hex rgb_overlay GLOBAL_CFG str_lower p light None
  ∧ (∀ s other, s ≠ EmptyString →
       set_light_dl from_hex rgb_set_light rgb_overlay
         (with_light_dark GLOBAL_CFG other) str_lower p light (Some s)
       = set_light_dl from_hex rgb_set_light rgb_overlay GLOBAL_CFG str_lower
           p light (Some s)
       ∧ overlay_dl from_hex rgb_overlay
           (with_light_dark GLOBAL_CFG other) str_lower p light (Some s)
         = overlay_dl from_hex rgb_overlay GLOBAL_CFG str_lower
             p light (Some s)).
Proof.
  intros t. split_and!.
  - intros Hl Hd.
    assert (overlay_dl from_hex rgb_overlay GLOBAL_CFG str_lower p light term
            = Raise AssertionError) as Hov.
    { unfold overlay_dl. cbv zeta. fold t.
      rewrite (bool_decide_false (t ∈ _)); [reflexivity|].
      rewrite !elem_of_cons, elem_of_nil. tauto. }
    split; [|done]. unfold set_light_dl.
    destruct (use_overlay GLOBAL_CFG); [done|].
    cbv zeta. fold t. rewrite (bool_decide_false (t ∈ _)); [reflexivity|].
    rewrite !elem_of_cons, elem_of_nil. tauto.
  - unfold set_light_dl, overlay_dl. by rewrite str_or_same.
  - unfold set_light_dl, overlay_dl. by rewrite str_or_empty.
  - unfold overlay_dl. by rewrite str_or_same.
  - unfold overlay_dl. by rewrite str_or_empty.
  - intros s other Hs. unfold set_light_dl, overlay_dl.
    cbn [use_overlay light_dark with_light_dark].
    by rewrite !str_or_nonempty.
Qed.

End terminal_facts.

Lemma set_light_dl_terminal_witness :
  set_light_dl Symbolic.from_hex Symbolic.SetLight Symbolic.Overlay
    (Symbolic.config false "dark") lower Symbolic.queer 0.75%float
    (Some "solarized")
  = Raise AssertionError
  ∧ overlay_dl Symbolic.from_hex Symbolic.Overlay
      (Symbolic.config true "dark") lower Symbolic.queer 0.75%float
      (Some "solarized")
    = Raise AssertionError
  ∧ set_light_dl Symbolic.from_hex Symbolic.SetLight Symbolic.Overlay
      (with_light_dark (Symbolic.config false "dark") "solarized") lower
      Symbolic.queer 0.75%float (Some "LIGHT")
    = Ok {| raw := None;
            colors := (fun c => Symbolic.SetLight c 0.75%float None (Some true))
                      <$> colors Symbolic.queer |}.
Proof.
  split_and!.
  - destruct (set_light_dl_terminal Symbolic.from_hex Symbolic.SetLight
                Symbolic.Overlay (Symbolic.config false "dark") lower
                Symbolic.queer 0.75%float (Some "solarized")) as (Hbad & _).
    apply Hbad; discriminate.
  - destruct (set_light_dl_terminal Symbolic.from_hex Symbolic.SetLight
                Symbolic.Overlay (Symbolic.config true "dark") lower
                Symbolic.queer 0.75%float (Some "solarized")) as (Hbad & _).
    apply Hbad; discriminate.
  - destruct (set_light_dl_terminal Symbolic.from_hex Symbolic.SetLight
                Symbolic.Overlay (Symbolic.config false "dark") lower
                Symbolic.queer 0.75%float None)
      as (_ & _ & _ & _ & _ & Hfree).
    destruct (Hfree "LIGHT" "solarized") as [Hset _]; [discriminate|].
    rewrite Hset. reflexivity.
Defined.

(** ** [remove_duplicates] and [unique_colors], again *)

Section dedup_facts.
Context `{Countable A}.
Implicit Types (l : list A) (seen : gset A).

Lemma remove_duplicates_seen_id l : ∀ seen,
  NoDup l → (∀ x, x ∈ l → x ∉ seen) →
  remove_duplicates_seen seen l = l.
Proof.
  induction l as [|y l IH]; intros seen Hnd Hseen; [done|].
  apply NoDup_cons in Hnd as [Hy Hnd]. simpl.
  rewrite decide_False by (apply Hseen; left). f_equal.
  apply IH; [done|]. intros x Hx.
  rewrite not_elem_of_union, not_elem_of_singleton. split.
  - intros ->. done.
  - apply Hseen. by right.
Qed.

Lemma remove_duplicates_seen_sublist l : ∀ seen,
  sublist (remove_duplicates_seen seen l) l.
Proof.
  induction l as [|y l IH]; intros seen; simpl; [done|].
  case_decide; [apply sublist_cons | apply sublist_skip]; apply IH.
Qed.

Lemma remove_duplicates_NoDup_id l : NoDup l → remove_duplicates l = l.
Proof. intros Hnd. apply remove_duplicates_seen_id; [done|]. set_solver. Qed.

(** X10.  [remove_duplicates] leaves a sequence without repetition as it
    is, so applying it twice is applying it once.  What it returns is
    obtained from the sequence by leaving elements out: it is never longer
    and never reorders. *)
Theorem remove_duplicates_idempotent l :
  remove_duplicates (remove_duplicates l) = remove_duplicates l
  ∧ (NoDup l → remove_duplicates l = l)
  ∧ sublist (remove_duplicates l) l
  ∧ (length (remove_duplicates l) ≤ length l)%nat.
Proof.
  split_and!.
  - apply remove_duplicates_NoDup_id, remove_duplicates_seen_NoDup.
  - apply remove_duplicates_NoDup_id.
  - apply remove_duplicates_seen_sublist.
  - apply sublist_length, remove_duplicates_seen_sublist.
Qed.

End dedup_facts.

Lemma remove_duplicates_idempotent_witness :
  remove_duplicates [3%nat; 1%nat; 2%nat] = [3%nat; 1%nat; 2%nat].
Proof.
  destruct (remove_duplicates_idempotent [3%nat; 1%nat; 2%nat]) as (_ & Hid & _).
  apply Hid. apply NoDup_ListNoDup. repeat constructor; simpl; lia.
Defined.

Section unique_again.
Context `{Countable RGB} (from_hex : string → result RGB).

Lemma remove_duplicates_nonempty (l : list RGB) :
  l ≠ [] → remove_duplicates l ≠ [].
Proof.
  destruct l as [|c l]; [done|]. intros _.
  unfold remove_duplicates. simpl. by rewrite decide_False by set_solver.
Qed.

Lemma unique_colors_Ok (p q : ColorProfile RGB) :
  unique_colors from_hex p = Ok q →
  colors p ≠ [] ∧ q = {| raw := None; colors := remove_duplicates (colors p) |}.
Proof.
  unfold unique_colors. destruct (decide (colors p = [])) as [Hnil|Hne].
  { by rewrite Hnil. }
  rewrite init_rgb by (by apply remove_duplicates_nonempty).
  by intros [= <-].
Qed.

(** X11.  A profile that [unique_colors] returns is left unchanged by
    [unique_colors]; a profile whose colors are all different keeps its
    colors, and loses only its hex strings.  On a profile without colors
    [unique_colors] raises [IndexError]. *)
Theorem unique_colors_idempotent (p : ColorProfile RGB) :
  (∀ q, unique_colors from_hex p = Ok q → unique_colors from_hex q = Ok q)
  ∧ (colors p ≠ [] → NoDup (colors p) →
     unique_colors from_hex p = Ok {| raw := None; colors := colors p |})
  ∧ (colors p = [] → unique_colors from_hex p = Raise IndexError).
Proof.
  split_and!.
  - intros q [Hne ->]%unique_colors_Ok. unfold unique_colors.
    cbn [colors].
    rewrite remove_duplicates_NoDup_id by apply remove_duplicates_seen_NoDup.
    apply init_rgb. by apply remove_duplicates_nonempty.
  - intros Hne Hnd. unfold unique_colors.
    rewrite remove_duplicates_NoDup_id by done. by apply init_rgb.
  - intros Hnil. unfold unique_colors. by rewrite Hnil.
Qed.

End unique_again.

Lemma unique_colors_idempotent_witness :
  unique_colors ColorUtil.from_hex ColorUtil.queer
  = Ok {| raw := None; colors := colors ColorUtil.queer |}.
Proof.
  destruct (unique_colors_idempotent ColorUtil.from_hex ColorUtil.queer)
    as (_ & Hid & _).
  apply Hid; [discriminate|].
  apply NoDup_ListNoDup. repeat constructor; simpl; intuition discriminate.
Defined.

(** ** Hex validation and custom presets, again *)

Lemma lower_length s : String.length (lower s) = String.length s.
Proof. induction s; simpl; by f_equal. Qed.

Lemma lower_char_hash c : lower_char c = "#"%char ↔ c = "#"%char.
Proof. by destruct c as [[] [] [] [] [] [] [] []]. Qed.

Lemma lower_char_hex c :
  char_in (lower_char c) "0123456789abcdefABCDEF"
  = char_in c "0123456789abcdefABCDEF".
Proof. by destruct c as [[] [] [] [] [] [] [] []]. Qed.

Lemma lower_chars s : chars (lower s) = lower_char <$> chars s.
Proof. induction s; simpl; by f_equal. Qed.

Lemma startswith_hash_head c s :
  startswith (String c s) "#" = bool_decide (c = "#"%char).
Proof.
  unfold startswith. cbn [String.prefix].
  destruct (ascii_dec "#" c) as [<-|Hne].
  - by destruct s.
  - by rewrite bool_decide_false.
Qed.

Lemma forallb_lower_hex (l : list ascii) :
  forallb (fun c => char_in c "0123456789abcdefABCDEF") (lower_char <$> l)
  = forallb (fun c => char_in c "0123456789abcdefABCDEF") l.
Proof.
  induction l as [|x l IH]; [done|].
  rewrite fmap_cons. cbn [forallb]. by rewrite lower_char_hex, IH.
Qed.

(** X12.  Validation does not look at the case of the letters: a string
    and its lower-case form are accepted or rejected together. *)
Theorem valid_hex_color_lower s : valid_hex_color (lower s) = valid_hex_color s.
Proof.
  unfold valid_hex_color, str_len. rewrite lower_length.
  destruct s as [|c s]; [done|].
  change (lower (String c s)) with (String (lower_char c) (lower s)).
  rewrite !startswith_hash_head. cbn [str_tail].
  f_equal; [f_equal|].
  - apply bool_decide_ext, lower_char_hash.
  - rewrite lower_chars. apply forallb_lower_hex.
Qed.

Section models_again.
Context {RGB ColorAlignment : Type} (from_hex : string → result RGB).
Implicit Types (cfg : Config ColorAlignment)
  (profiles acc : dict string (ColorProfile RGB)).

Lemma validation_loop_Ok cs :
  validation_loop cs = Ok () → Forall hex_literal_format cs.
Proof.
  unfold validation_loop. induction cs as [|c cs IH]; simpl; [done|].
  destruct (valid_hex_color c) eqn:Hc; simpl; [|done].
  intros Hcs. constructor; [by apply valid_hex_color_format | by apply IH].
Qed.

Lemma build_Ok cs (p : ColorProfile RGB) :
  build_hex_color_profile from_hex cs = Ok p →
  Forall hex_literal_format cs ∧ cs ≠ []
  ∧ raw p = Some cs ∧ mapM from_hex cs = Ok (colors p).
Proof.
  unfold build_hex_color_profile.
  destruct (validation_loop cs) as [[]|] eqn:Hv; [|done].
  apply validation_loop_Ok in Hv.
  change (ColorProfile_init from_hex (inl cs) = Ok p →
          Forall hex_literal_format cs ∧ cs ≠ []
          ∧ raw p = Some cs ∧ mapM from_hex cs = Ok (colors p)).
  destruct (decide (cs = [])) as [->|Hne]; [done|].
  rewrite init_hex by done.
  destruct (mapM from_hex cs) as [rgbs|]; simpl; [|done].
  by intros [= <-].
Qed.

(** X13.  [build_hex_color_profile] raises [IndexError] on the empty list,
    which passes validation.  When it returns a profile, every string of
    the list is a hex color literal, the profile keeps the list as its hex
    strings, and it has one color for each string, the one [from_hex]
    gives. *)
Theorem build_hex_color_profile_sound cs :
  build_hex_color_profile from_hex [] = Raise IndexError
  ∧ ∀ p : ColorProfile RGB,
      build_hex_color_profile from_hex cs = Ok p →
      Forall hex_literal_format cs ∧ cs ≠ []
      ∧ raw p = Some cs
      ∧ mapM from_hex cs = Ok (colors p)
      ∧ length (colors p) = length cs.
Proof.
  split; [done|]. intros p (Hfmt & Hne & Hraw & Hm)%build_Ok.
  split_and!; [done..|]. by apply mapM_result_length in Hm.
Qed.

Lemma custom_presets_loop_failure pre key cs post e : ∀ acc,
  Forall (fun item => ∃ p, build_hex_color_profile from_hex item.2 = Ok p) pre →
  build_hex_color_profile from_hex cs = Raise e →
  for_each (custom_preset_step from_hex) (pre ++ (key, cs) :: post) acc
  = Raise (match e with
           | ValueError err => ValueError (key_error key err)
           | _ => e
           end).
Proof.
  intros acc Hpre Hcs. revert acc.
  induction Hpre as [|[k c] pre [p Hp] _ IH]; intros acc; simpl in *.
  - rewrite Hcs. by destruct e.
  - rewrite Hp. simpl. apply IH.
Qed.

(** X14.  The first entry that fails to build decides the outcome.  A
    [ValueError], whether from validation or from [from_hex], is raised
    again with the key of the entry before its message; any other
    exception leaves the function as it is.  In particular an entry with
    an empty color list ends the call with a bare [IndexError]. *)
Theorem custom_preset_profiles_first_failure cfg pre key cs post :
  custom_presets_items cfg = pre ++ (key, cs) :: post →
  Forall (fun item => ∃ p, build_hex_color_profile from_hex item.2 = Ok p) pre →
  (∀ e, build_hex_color_profile from_hex cs = Raise e →
     custom_preset_profiles from_hex cfg
     = Raise (match e with
              | ValueError err => ValueError (key_error key err)
              | _ => e
              end))
  ∧ (cs = [] → custom_preset_profiles from_hex cfg = Raise IndexError).
Proof.
  intros Hitems Hpre. unfold custom_preset_profiles. rewrite Hitems. split.
  - intros e He. by apply custom_presets_loop_failure.
  - intros ->.
    by rewrite (custom_presets_loop_failure pre key [] post IndexError).
Qed.

Lemma custom_presets_loop_Ok items : ∀ acc profiles,
  for_each (custom_preset_step from_hex) items acc = Ok profiles →
  Forall (fun item => ∃ p, build_hex_color_profile from_hex item.2 = Ok p) items.
Proof.
  induction items as [|[k cs] items IH]; intros acc profiles; simpl; [done|].
  destruct (build_hex_color_profile from_hex cs) as [p|[]] eqn:Hp;
    simpl; try done.
  intros Hrest. constructor; [by exists p | by eapply IH].
Qed.

Lemma builds_exist items :
  Forall (fun item => ∃ p, build_hex_color_profile from_hex item.2 = Ok p) items →
  ∃ profiles, Forall2 (builds from_hex) items profiles.
Proof.
  induction 1 as [|[k cs] items [p Hp] _ [profiles IH]].
  - by exists [].
  - exists ((k, p) :: profiles). by constructor.
Qed.

(** X15.  When [custom_preset_profiles] returns a mapping, every color
    string of every custom preset is a hex color literal and no preset is
    empty; the mapping holds, for each preset in turn, its key and the
    profile built from its strings. *)
Theorem custom_preset_profiles_sound cfg profiles :
  NoDup (custom_presets_items cfg).*1 →
  custom_preset_profiles from_hex cfg = Ok profiles →
  Forall (fun item => Forall hex_literal_format item.2 ∧ item.2 ≠ [])
         (custom_presets_items cfg)
  ∧ Forall2 (builds from_hex) (custom_presets_items cfg) profiles
  ∧ profiles.*1 = (custom_presets_items cfg).*1.
Proof.
  unfold custom_preset_profiles. intros Hnd Hok.
  pose proof (custom_presets_loop_Ok _ _ _ Hok) as Hall.
  destruct (builds_exist _ Hall) as [profiles' Hb].
  rewrite (custom_presets_loop_ok from_hex _ [] profiles' Hnd Hb) in Hok.
  injection Hok as <-. split_and!.
  - eapply Forall_impl; [exact Hall|].
    intros item [p Hp]. apply build_Ok in Hp as (? & ? & _). done.
  - done.
  - clear -Hb. induction Hb as [|[k cs] [k' p] items ps [Hk _] _ IH]; [done|].
    rewrite !fmap_cons. simpl in Hk. cbn [fst]. by rewrite Hk, IH.
Qed.

End models_again.

Lemma custom_preset_profiles_first_failure_witness :
  custom_preset_profiles ColorUtil.from_hex
    (ColorUtil.config_with
       (Some [("mine", ["#B57FDD"; "#FFFFFF"; "#49821E"]); ("none", [])]))
  = Raise IndexError.
Proof.
  destruct (custom_preset_profiles_first_failure ColorUtil.from_hex
              (ColorUtil.config_with
                 (Some [("mine", ["#B57FDD"; "#FFFFFF"; "#49821E"]); ("none", [])]))
              [("mine", ["#B57FDD"; "#FFFFFF"; "#49821E"])] "none" [] [])
    as [_ Hempty].
  - reflexivity.
  - repeat constructor. by eexists.
  - by apply Hempty.
Defined.

Lemma custom_preset_profiles_sound_witness :
  Forall (fun item : string * list string =>
            Forall hex_literal_format item.2 ∧ item.2 ≠ [])
         [("mine", ["#B57FDD"; "#FFFFFF"; "#49821E"]); ("short", ["#fff"; "#000"])].
Proof.
  destruct (custom_preset_profiles_sound ColorUtil.from_hex
              (ColorUtil.config_with
                 (Some [("mine", ["#B57FDD"; "#FFFFFF"; "#49821E"]);
                        ("short", ["#fff"; "#000"])]))
              [("mine", ColorUtil.queer);
               ("short", {| raw := Some ["#fff"; "#000"];
                            colors := [(255, 255, 255); (0, 0, 0)] |})])
    as (Hall & _).
  - apply NoDup_ListNoDup. repeat constructor; simpl; intuition discriminate.
  - reflexivity.
  - exact Hall.
Defined.

Lemma build_hex_color_profile_sound_witness :
  Forall hex_literal_format ["#fff"; "#000"].
Proof.
  destruct (build_hex_color_profile_sound ColorUtil.from_hex ["#fff"; "#000"])
    as [_ Hok].
  destruct (Hok {| raw := Some ["#fff"; "#000"];
                   colors := [(255, 255, 255); (0, 0, 0)] |} ltac:(reflexivity))
    as (Hfmt & _).
  exact Hfmt.
Defined.

(** ** The launcher, again *)

(** [int] on sample texts: white space, signs and underscores, what is
    refused, and the limit on the number of digits. *)
Lemma int_samples :
  int "10" = Ok 10
  ∧ int (String "009" "12" +:+ str_of_char "010") = Ok 12
  ∧ int (" 1_000" +:+ str_of_char "013") = Ok 1000
  ∧ int ("10" +:+ String "011" (str_of_char "012")) = Ok 10
  ∧ int "-7" = Ok (-7)
  ∧ int "+7" = Ok 7
  ∧ int "" = Raise (ValueError "invalid literal for int() with base 10: ''")
  ∧ int "1__0"
    = Raise (ValueError "invalid literal for int() with base 10: '1__0'")
  ∧ int "_1" = Raise (ValueError "invalid literal for int() with base 10: '_1'")
  ∧ int "1_" = Raise (ValueError "invalid literal for int() with base 10: '1_'")
  ∧ int "0x10"
    = Raise (ValueError "invalid literal for int() with base 10: '0x10'")
  ∧ int "1 0"
    = Raise (ValueError "invalid literal for int() with base 10: '1 0'")
  ∧ int "- 1"
    = Raise (ValueError "invalid literal for int() with base 10: '- 1'")
  ∧ int (String "028" "10")
    = Raise (ValueError "invalid literal for int() with base 10: '\x1c10'")
  ∧ int (string_of_list_ascii (replicate 4301 "1"%char))
    = Raise (ValueError "Exceeds the limit (4300 digits) for integer string conversion: value has 4301 digits; use sys.set_int_max_str_digits() to increase the limit")
  ∧ int (string_of_list_ascii (replicate 4301 "0"%char))
    = Raise (ValueError "Exceeds the limit (4300 digits) for integer string conversion: value has 4301 digits; use sys.set_int_max_str_digits() to increase the limit")
  ∧ int (string_of_list_ascii (replicate 4301 "1"%char) +:+ "x")
    = Raise (ValueError "Exceeds the limit (4300 digits) for integer string conversion: value has 4301 digits; use sys.set_int_max_str_digits() to increase the limit")
  ∧ ∃ n, int (String "-" (string_of_list_ascii (replicate 4300 "1"%char)))
         = Ok n.
Proof.
  split_and!; try (vm_compute; reflexivity).
  eexists. vm_compute. reflexivity.
Qed.

Lemma int_Raise s e : int s = Raise e → ∃ msg, e = ValueError msg.
Proof.
  unfold int.
  destruct (match strip s with
            | String "-" r => (true, r)
            | String "+" r => (false, r)
            | _ => (false, strip s)
            end) as [negative body].
  destruct (span_digits body) as [run rest].
  destruct (parse_digits true 0 run) as [n|]; [|intros [= <-]; by eexists].
  destruct (INT_MAX_STR_DIGITS <? count_digits run)%nat;
    [intros [= <-]; by eexists|].
  destruct (bool_decide (rest = EmptyString)); [done|].
  intros [= <-]. by eexists.
Qed.

Lemma mapM_int_Raise l e : mapM int l = Raise e → ∃ msg, e = ValueError msg.
Proof.
  induction l as [|s l IH]; simpl; [done|].
  destruct (int s) as [n|e'] eqn:Hs; simpl.
  - destruct (mapM int l) as [ns|e'']; simpl; [done|].
    intros [= <-]. by apply IH.
  - intros [= <-]. by eapply int_Raise.
Qed.

Lemma version_tuple_empty : ∃ msg, version_tuple EmptyString = Raise (ValueError msg).
Proof. by eexists. Qed.

Lemma reason_macos_not_missing v : REASON_MACOS v ≠ REASON_MISSING.
Proof. unfold REASON_MACOS, REASON_MISSING. intros Heq. by injection Heq. Qed.

Section launcher_again.
Context {Path : Type} (joinpath : Path → string → Path)
  (path_str : Path → string) (SRC : Path).
Implicit Types env : Env Path.

(** What [reason] can be. *)
Lemma fallback_reason_cases env reason :
  fallback_reason joinpath SRC env = Ok reason →
  reason = None
  ∨ reason = Some REASON_WINDOWS
  ∨ reason = Some (REASON_MACOS (mac_ver env))
  ∨ reason = Some REASON_MISSING.
Proof.
  unfold fallback_reason.
  destruct (bool_decide (system env = "Windows") && (windows_major env <? 10)).
  { simpl. intros [= <-]. auto. }
  destruct (bool_decide (system env = "Darwin")); simpl.
  - destruct (str_truthy (mac_ver env)); simpl.
    + destruct (version_tuple (mac_ver env)) as [v|]; simpl; [|done].
      destruct (tuple_lt v [10; 12]); simpl.
      * intros [= <-]. auto.
      * destruct (path_exists env _); simpl; intros [= <-]; auto.
    + destruct (path_exists env _); simpl; intros [= <-]; auto.
  - destruct (path_exists env _); simpl; intros [= <-]; auto.
Qed.

Lemma fallback_reason_Raise env e :
  fallback_reason joinpath SRC env = Raise e →
  system env = "Darwin" ∧ mac_ver env ≠ EmptyString
  ∧ version_tuple (mac_ver env) = Raise e.
Proof.
  unfold fallback_reason.
  destruct (bool_decide (system env = "Windows") && (windows_major env <? 10));
    [done|].
  case_bool_decide as Hs; simpl; [|done].
  destruct (str_truthy (mac_ver env)) eqn:Ht; simpl; [|done].
  destruct (version_tuple (mac_ver env)) as [v|e'] eqn:Hv; simpl; [done|].
  intros [= <-]. split_and!; [done| |done].
  intros Hempty. by rewrite Hempty in Ht.
Qed.

(** X16.  When [run_rust] returns, it has run the Python version exactly
    once, as the last thing it did.  With [HYFETCH_DONT_WARN_RUST] in the
    process environment nothing was printed before; without it exactly one
    warning was printed, made of one of the three reasons and the hint on
    how to suppress it. *)
Theorem run_rust_warning env trace :
  run_rust joinpath path_str SRC env = Returns trace →
  ("HYFETCH_DONT_WARN_RUST" ∈ environ env → trace = [RunPy])
  ∧ ("HYFETCH_DONT_WARN_RUST" ∉ environ env →
     ∃ reason,
       reason ∈ [REASON_WINDOWS; REASON_MACOS (mac_ver env); REASON_MISSING]
       ∧ trace = [Printc (reason +:+ str_of_char "010" +:+ SUPPRESS_HINT); RunPy]).
Proof.
  unfold run_rust.
  destruct (fallback_reason joinpath SRC env) as [reason|] eqn:Hr; [|done].
  apply fallback_reason_cases in Hr.
  destruct (opt_truthy reason) eqn:Ht; [|done].
  intros [= <-]. unfold warning. split.
  - intros Hin. by rewrite bool_decide_true.
  - intros Hin. rewrite bool_decide_false by done.
    destruct Hr as [-> | [-> | [-> | ->]]]; [done|..]; eexists; (split; [|done]);
      rewrite !elem_of_cons; auto.
Qed.

(** X17.  On Darwin, a version string that is not empty and cannot be
    read as numbers separated by dots makes [run_rust] raise: the exception
    is the [ValueError] of [int], and nothing is printed, run or executed,
    whether the executable exists or not.  (The version string is taken to
    be ASCII, where [int] is as modelled.) *)
Theorem run_rust_raises env e :
  system env = "Darwin" → mac_ver env ≠ EmptyString →
  is_ascii (mac_ver env) →
  version_tuple (mac_ver env) = Raise e →
  run_rust joinpath path_str SRC env = Raises e
  ∧ ∃ msg, e = ValueError msg.
Proof.
  intros Hs Hne _ Hv. split; [|by eapply mapM_int_Raise].
  unfold run_rust, fallback_reason.
  rewrite Hs. simpl.
  destruct (str_truthy (mac_ver env)) eqn:Ht;
    [|by apply str_truthy_empty in Ht].
  by rewrite Hv.
Qed.

(** X18.  On Darwin, with a version of at least two numbers, the macOS
    reason is given exactly when the first number is below 10, or is 10
    with the second below 12: further numbers never matter.  A version of
    one number gives it exactly when that number is at most 10. *)
Theorem macos_threshold env :
  system env = "Darwin" →
  (∀ major minor rest,
     version_tuple (mac_ver env) = Ok (major :: minor :: rest) →
     fallback_reason joinpath SRC env = Ok (Some (REASON_MACOS (mac_ver env)))
     ↔ major < 10 ∨ (major = 10 ∧ minor < 12))
  ∧ (∀ major,
     version_tuple (mac_ver env) = Ok [major] →
     fallback_reason joinpath SRC env = Ok (Some (REASON_MACOS (mac_ver env)))
     ↔ major <= 10).
Proof.
  intros Hs.
  assert (∀ v, version_tuple (mac_ver env) = Ok v →
    fallback_reason joinpath SRC env = Ok (Some (REASON_MACOS (mac_ver env)))
    ↔ tuple_lt v [10; 12] = true) as Hlt.
  { intros v Hv. unfold fallback_reason. rewrite Hs. simpl.
    destruct (str_truthy (mac_ver env)) eqn:Ht; simpl.
    - rewrite Hv. simpl. destruct (tuple_lt v [10; 12]); simpl.
      + done.
      + split; [|done].
        by destruct (path_exists env _).
    - apply str_truthy_empty in Ht. rewrite Ht in Hv.
      destruct version_tuple_empty as [msg Hmsg]. by rewrite Hmsg in Hv. }
  split.
  - intros major minor rest Hv. rewrite (Hlt _ Hv). simpl.
    destruct (major <? 10) eqn:H1; [split; [lia|done]|].
    destruct (10 <? major) eqn:H2; [split; [done|lia]|].
    destruct (minor <? 12) eqn:H3; [split; [lia|done]|].
    destruct (12 <? minor) eqn:H4; [split; [done|lia]|].
    destruct rest; simpl; (split; [done|lia]).
  - intros major Hv. rewrite (Hlt _ Hv). simpl.
    destruct (major <? 10) eqn:H1; [split; [lia|done]|].
    destruct (10 <? major) eqn:H2; [split; [done|lia]|].
    split; [lia|done].
Qed.

End launcher_again.

Lemma run_rust_warning_witness :
  [RunPy] = [RunPy]
  ∧ ∃ reason,
      reason ∈ [REASON_WINDOWS; REASON_MACOS ""; REASON_MISSING]
      ∧ [Printc (REASON_MISSING +:+ str_of_char "010" +:+ SUPPRESS_HINT); RunPy]
        = [Printc (reason +:+ str_of_char "010" +:+ SUPPRESS_HINT); RunPy].
Proof.
  split.
  - apply (run_rust_warning Posix.joinpath Posix.path_str Posix.SRC
             {| system := "Linux"; windows_major := 0; mac_ver := "";
                path_exists := fun _ => false;
                environ := ["HOME"; "HYFETCH_DONT_WARN_RUST"];
                sys_argv := ["hyfetch"] |}); [reflexivity|].
    simpl. rewrite !elem_of_cons. auto.
  - apply (run_rust_warning Posix.joinpath Posix.path_str Posix.SRC
             (Posix.env "Linux" "" 0 false)); [reflexivity|].
    simpl. rewrite !elem_of_cons, elem_of_nil. intros [|[|[]]]; discriminate.
Defined.

Lemma run_rust_raises_witness :
  run_rust Posix.joinpath Posix.path_str Posix.SRC
    (Posix.env "Darwin" "10.x" 0 true)
  = Raises (ValueError "invalid literal for int() with base 10: 'x'")
  ∧ run_rust Posix.joinpath Posix.path_str Posix.SRC
      (Posix.env "Darwin" "10..1" 0 false)
    = Raises (ValueError "invalid literal for int() with base 10: ''").
Proof.
  split.
  - apply (run_rust_raises Posix.joinpath Posix.path_str Posix.SRC
             (Posix.env "Darwin" "10.x" 0 true));
      [reflexivity | discriminate | | reflexivity].
    repeat constructor; simpl; lia.
  - apply (run_rust_raises Posix.joinpath Posix.path_str Posix.SRC
             (Posix.env "Darwin" "10..1" 0 false));
      [reflexivity | discriminate | | reflexivity].
    repeat constructor; simpl; lia.
Defined.

Lemma macos_threshold_witness :
  fallback_reason Posix.joinpath Posix.SRC (Posix.env "Darwin" "10.11.6" 0 true)
  = Ok (Some (REASON_MACOS "10.11.6"))
  ∧ fallback_reason Posix.joinpath Posix.SRC (Posix.env "Darwin" "10.12.6" 0 true)
    ≠ Ok (Some (REASON_MACOS "10.12.6")).
Proof.
  split.
  - destruct (macos_threshold Posix.joinpath Posix.SRC
                (Posix.env "Darwin" "10.11.6" 0 true) ltac:(reflexivity))
      as [Hlong _].
    apply (Hlong 10 11 [6]); [reflexivity | lia].
  - destruct (macos_threshold Posix.joinpath Posix.SRC
                (Posix.env "Darwin" "10.12.6" 0 true) ltac:(reflexivity))
      as [Hlong _].
    intros Heq. apply (Hlong 10 12 [6]) in Heq; [lia | reflexivity].
Defined.

(** ** Reading a version string *)

Lemma chars_inj s1 s2 : chars s1 = chars s2 → s1 = s2.
Proof.
  intros Heq. rewrite <- (string_of_list_ascii_of_string s1),
    <- (string_of_list_ascii_of_string s2). unfold chars in Heq. by rewrite Heq.
Qed.

Lemma chars_rev_app s1 : ∀ s2,
  chars (String.rev_app s1 s2) = reverse (chars s1) ++ chars s2.
Proof.
  induction s1 as [|c s1 IH]; intros s2; [done|].
  simpl. rewrite IH, reverse_cons, <- app_assoc. done.
Qed.

Lemma str_rev_involutive s : String.rev (String.rev s) = s.
Proof.
  apply chars_inj. unfold String.rev.
  rewrite !chars_rev_app. simpl. rewrite !app_nil_r. apply reverse_involutive.
Qed.

Lemma lstrip_id s :
  Forall (fun c => is_space c = false) (chars s) → lstrip s = s.
Proof. destruct s as [|c s]; [done|]. intros [Hc _]%Forall_cons. simpl. by rewrite Hc. Qed.

Lemma strip_id s :
  Forall (fun c => is_space c = false) (chars s) → strip s = s.
Proof.
  intros Hs. unfold strip. rewrite (lstrip_id s) by done.
  rewrite lstrip_id; [apply str_rev_involutive|].
  unfold String.rev. rewrite chars_rev_app. simpl. rewrite app_nil_r.
  by apply Forall_reverse.
Qed.

Lemma digit_not_space c : is_Some (digit_value c) → is_space c = false.
Proof. destruct c as [[] [] [] [] [] [] [] []]; intros [d Hd]; by vm_compute in Hd |- *. Qed.

Lemma digit_not_sign c r :
  is_Some (digit_value c) →
  match String c r with
  | String "-" r0 => (true, r0)
  | String "+" r0 => (false, r0)
  | _ => (false, String c r)
  end = (false, String c r).
Proof. destruct c as [[] [] [] [] [] [] [] []]; intros [d Hd]; by vm_compute in Hd |- *. Qed.

Lemma digit_not_dot c : is_Some (digit_value c) → c ≠ "."%char.
Proof. intros [d Hd] ->. by vm_compute in Hd. Qed.

Lemma parse_digits_decimal s : ∀ acc,
  Forall (fun c => is_Some (digit_value c)) (chars s) →
  parse_digits false acc s
  = Some (foldl (fun acc c => 10 * acc + default 0 (digit_value c)) acc (chars s)).
Proof.
  induction s as [|c s IH]; intros acc Hs; [done|].
  apply Forall_cons in Hs as [[d Hd] Hs]. simpl. rewrite Hd. simpl.
  by apply IH.
Qed.

Lemma span_digits_decimal s :
  Forall (fun c => is_Some (digit_value c)) (chars s) →
  span_digits s = (s, EmptyString).
Proof.
  induction s as [|c s IH]; [done|]. intros [Hc Hs]%Forall_cons.
  cbn [span_digits]. rewrite (bool_decide_true _ Hc). simpl.
  by rewrite (IH Hs).
Qed.

Lemma count_digits_decimal s :
  Forall (fun c => is_Some (digit_value c)) (chars s) →
  count_digits s = String.length s.
Proof.
  unfold count_digits. rewrite <- chars_length. generalize (chars s).
  induction 1 as [|c l Hc _ IH]; [done|].
  rewrite filter_cons_True by done. simpl. by rewrite IH.
Qed.

Lemma int_decimal s :
  is_decimal s → (String.length s ≤ 4300)%nat → int s = Ok (decimal_value s).
Proof.
  intros [Hne Hs] Hlen. unfold int, decimal_value.
  rewrite strip_id by (eapply Forall_impl; [done|]; apply digit_not_space).
  destruct s as [|c s]; [done|].
  pose proof Hs as [Hc Hs']%Forall_cons.
  rewrite (digit_not_sign c s Hc).
  rewrite (span_digits_decimal _ Hs), (count_digits_decimal _ Hs).
  rewrite (proj2 (Nat.ltb_ge _ _)) by exact Hlen.
  destruct Hc as [d Hd]. cbn [parse_digits]. rewrite Hd.
  rewrite parse_digits_decimal by done.
  rewrite bool_decide_true by done.
  change (chars (String c s)) with (c :: chars s). cbn [foldl].
  by rewrite Hd.
Qed.

Lemma split_at_no_sep sep s :
  sep ∉ chars s → split_at sep s = [s].
Proof.
  induction s as [|c s IH]; [done|]. simpl.
  rewrite not_elem_of_cons. intros [Hne Hs].
  rewrite decide_False by done. by rewrite IH.
Qed.

Lemma split_at_app sep s rest :
  sep ∉ chars s →
  split_at sep (s +:+ String sep rest) = s :: split_at sep rest.
Proof.
  induction s as [|c s IH].
  - intros _. change (EmptyString +:+ String sep rest) with (String sep rest).
    simpl. by rewrite decide_True.
  - change (chars (String c s)) with (c :: chars s).
    rewrite not_elem_of_cons. intros [Hne Hs].
    change (String c s +:+ String sep rest)
      with (String c (s +:+ String sep rest)).
    cbn [split_at]. rewrite decide_False by done. by rewrite IH.
Qed.

Lemma split_at_concat sep (comps : list string) :
  comps ≠ [] → Forall (fun s => sep ∉ chars s) comps →
  split_at sep (String.concat (str_of_char sep) comps) = comps.
Proof.
  induction comps as [|s comps IH]; [done|]. intros _ [Hs Hcomps]%Forall_cons.
  destruct comps as [|s' comps].
  - simpl. by apply split_at_no_sep.
  - change (String.concat (str_of_char sep) (s :: s' :: comps))
      with (s +:+ String sep (String.concat (str_of_char sep) (s' :: comps))).
    rewrite split_at_app by done. f_equal. by apply IH.
Qed.

Lemma decimal_no_dot s : is_decimal s → "."%char ∉ chars s.
Proof.
  intros [_ Hs] Hin. eapply Forall_forall in Hs; [|done].
  by apply digit_not_dot in Hs.
Qed.

Lemma mapM_int_decimal comps :
  Forall is_decimal comps →
  Forall (fun s => (String.length s ≤ 4300)%nat) comps →
  mapM int comps = Ok (decimal_value <$> comps).
Proof.
  induction 1 as [|s comps Hs _ IH]; [done|]. intros [Hlen Hlens]%Forall_cons.
  simpl. rewrite (int_decimal s Hs Hlen). simpl. fold (mapM int comps).
  by rewrite IH.
Qed.

(** X19.  A version string made of decimal numbers of at most 4300 digits
    each, separated by dots, is read as the tuple of these numbers:
    [tuple(map(int, ...split('.')))] does not raise on it. *)
Theorem version_tuple_decimal (comps : list string) :
  comps ≠ [] → Forall is_decimal comps →
  Forall (fun s => (String.length s ≤ 4300)%nat) comps →
  version_tuple (String.concat "." comps) = Ok (decimal_value <$> comps).
Proof.
  intros Hne Hcomps Hlens. unfold version_tuple.
  rewrite (split_at_concat "."%char) by
    (done || (eapply Forall_impl; [exact Hcomps|]; apply decimal_no_dot)).
  by apply mapM_int_decimal.
Qed.

Lemma version_tuple_decimal_witness :
  version_tuple "10.15.7" = Ok [10; 15; 7]
  ∧ version_tuple "010.0" = Ok [10; 0].
Proof.
  split.
  - apply (version_tuple_decimal ["10"; "15"; "7"]); [discriminate| |].
    + repeat constructor; try discriminate; by eexists.
    + repeat constructor; simpl; lia.
  - apply (version_tuple_decimal ["010"; "0"]); [discriminate| |].
    + repeat constructor; try discriminate; by eexists.
    + repeat constructor; simpl; lia.
Defined.

(** ** Loading the palette registry *)

Lemma mapM_result_Ok {A B} (f : A → result B) (l : list A) :
  (∃ k, mapM f l = Ok k) ↔ Forall (fun x => ∃ y, f x = Ok y) l.
Proof.
  induction l as [|x l IH]; simpl.
  - split; [done|]. by exists [].
  - rewrite Forall_cons, <- IH. split.
    + intros [k Hk]. destruct (f x) as [y|]; simpl in *; [|done].
      destruct (mapM f l) as [k'|]; simpl in *; [|done]. eauto.
    + intros [[y Hy] [k' Hk']]. rewrite Hy. simpl.
      fold (mapM f l). rewrite Hk'. by eexists.
Qed.

Section registry_facts.
Context {RGB : Type} (from_hex : string → result RGB).

Lemma build_preset_accepts (l : preset_literal) (p : ColorProfile RGB) :
  build_preset from_hex l = Ok p →
  Forall (fun c => ∃ rgb, from_hex c = Ok rgb) (literal_hex l).
Proof.
  assert (∀ hex (q : ColorProfile RGB),
    ColorProfile_init from_hex (inl hex) = Ok q →
    Forall (fun c => ∃ rgb, from_hex c = Ok rgb) hex) as Hinit.
  { intros hex q Hq. apply mapM_result_Ok.
    destruct (decide (hex = [])) as [->|Hne]; [done|].
    rewrite init_hex in Hq by done.
    destruct (mapM from_hex hex) as [rgbs|]; [by eexists|done]. }
  destruct l as [hex|hex weights]; unfold build_preset; cbn [literal_hex].
  - apply Hinit.
  - destruct (ColorProfile_init from_hex (inl hex)) as [q|] eqn:Hq; [|done].
    intros _. by eapply Hinit.
Qed.

Lemma build_preset_wf (l : preset_literal) :
  literal_wf l = true →
  Forall (fun c => ∃ rgb, from_hex c = Ok rgb) (literal_hex l) →
  ∃ p, build_preset from_hex l = Ok p.
Proof.
  intros Hwf [rgbs Hm]%mapM_result_Ok.
  pose proof (mapM_result_length _ _ _ Hm) as Hlen.
  destruct l as [hex|hex weights]; unfold build_preset, literal_wf in *;
    cbn [literal_hex] in *.
  - apply negb_true_iff, bool_decide_eq_false in Hwf.
    rewrite init_hex, Hm by done. by eexists.
  - apply andb_true_iff in Hwf as [[Hne Hl]%andb_true_iff Hw].
    apply negb_true_iff, bool_decide_eq_false in Hne.
    apply bool_decide_eq_true in Hl, Hw.
    rewrite init_hex, Hm by done. cbn [mbind result_bind].
    rewrite with_weights_expand by (cbn [colors]; lia). cbn [mbind result_bind].
    cbn [colors].
    rewrite init_rgb; [by eexists|].
    destruct weights as [|w weights]; [simpl in Hw; lia|].
    destruct rgbs as [|c rgbs]; [by destruct hex|].
    intros Hnil. simpl in Hw.
    assert (c ∈ expand (c :: rgbs) (w :: weights)) as Hin
      by (by apply (elem_of_expand _ _ 0%nat c w)).
    rewrite Hnil in Hin. by apply elem_of_nil in Hin.
Qed.

Lemma registry_loop_ok (items : list (string * preset_literal)) :
  ∀ (acc profiles : dict string (ColorProfile RGB)),
  NoDup (acc.*1 ++ items.*1) →
  Forall2 (loads from_hex) items profiles →
  for_each (fun d (kl : string * preset_literal) =>
              p ← build_preset from_hex kl.2; Ok (dict_set d kl.1 p))
           items acc
  = Ok (acc ++ profiles).
Proof.
  induction items as [|[k l] items IH]; intros acc profiles Hnd Hall.
  - apply Forall2_nil_inv_l in Hall as ->. simpl. by rewrite app_nil_r.
  - apply Forall2_cons_inv_l in Hall as ([k' p] & profiles' & [Hk Hp] & Hall & ->).
    simpl in *. subst k'. rewrite Hp. simpl.
    apply NoDup_app in Hnd as (Hacc & Hdisj & Hitems).
    apply NoDup_cons in Hitems as [Hk Hitems].
    rewrite dict_set_fresh by (intros Hin; apply (Hdisj _ Hin); left).
    rewrite (IH _ profiles'); [by rewrite <- app_assoc| |done].
    rewrite fmap_app. simpl. rewrite <- app_assoc. simpl.
    apply NoDup_app. split_and!; [done| |by apply NoDup_cons].
    intros x Hx. apply Hdisj in Hx. done.
Qed.

Lemma registry_loop_Ok (items : list (string * preset_literal)) :
  ∀ (acc d : dict string (ColorProfile RGB)),
  for_each (fun d (kl : string * preset_literal) =>
              p ← build_preset from_hex kl.2; Ok (dict_set d kl.1 p))
           items acc = Ok d →
  Forall (fun kl => ∃ p, build_preset from_hex kl.2 = Ok p) items.
Proof.
  induction items as [|[k l] items IH]; intros acc d; simpl; [done|].
  destruct (build_preset from_hex l) as [p|] eqn:Hp; simpl; [|done].
  intros Hrest. constructor; [by exists p | by eapply IH].
Qed.

Lemma loads_exist (items : list (string * preset_literal)) :
  Forall (fun kl => ∃ p, build_preset from_hex kl.2 = Ok p) items →
  ∃ profiles, Forall2 (loads from_hex) items profiles.
Proof.
  induction 1 as [|[k l] items [p Hp] _ [profiles IH]].
  - by exists [].
  - exists ((k, p) :: profiles). by constructor.
Qed.

Lemma PRESET_LITERALS_wf :
  Forall (fun kl => literal_wf kl.2 = true) PRESET_LITERALS.
Proof.
  apply Forall_forall. intros kl Hkl%list_elem_of_In.
  assert (forallb (fun kl : string * preset_literal => literal_wf kl.2)
            PRESET_LITERALS = true) as Hall by (vm_compute; reflexivity).
  rewrite forallb_forall in Hall. by apply Hall.
Qed.

Lemma PRESET_LITERALS_NoDup : NoDup PRESET_LITERALS.*1.
Proof. apply (bool_decide_unpack _). by vm_compute. Qed.

(** X20.  Loading the registry succeeds exactly when [from_hex] accepts
    every hex string written in it.  The registry then holds, for each
    entry of the source in turn, its name and the profile built from it:
    the names are all different, so no entry replaces another. *)
Theorem PRESETS_loads :
  ((∃ d, PRESETS from_hex = Ok d)
   ↔ ∀ name l c, (name, l) ∈ PRESET_LITERALS → c ∈ literal_hex l →
                 ∃ rgb, from_hex c = Ok rgb)
  ∧ ∀ d, PRESETS from_hex = Ok d →
         Forall2 (loads from_hex) PRESET_LITERALS d
         ∧ d.*1 = PRESET_LITERALS.*1
         ∧ NoDup d.*1.
Proof.
  assert (∀ d, PRESETS from_hex = Ok d →
               Forall2 (loads from_hex) PRESET_LITERALS d) as Hd.
  { intros d Hok. unfold PRESETS in Hok.
    pose proof (registry_loop_Ok _ _ _ Hok) as Hall.
    destruct (loads_exist _ Hall) as [profiles Hb].
    rewrite (registry_loop_ok _ [] profiles PRESET_LITERALS_NoDup Hb) in Hok.
    by injection Hok as <-. }
  split; [split|].
  - intros [d Hok%Hd] name l c Hl Hc.
    assert (∃ p, build_preset from_hex l = Ok p) as [p Hp].
    { clear -Hok Hl. induction Hok as [|kl kp ls ps [_ Hb] _ IH].
      - by apply elem_of_nil in Hl.
      - apply elem_of_cons in Hl as [<-|Hl]; [by eexists|]. by apply IH. }
    apply build_preset_accepts in Hp.
    by eapply Forall_forall in Hp.
  - intros Hacc.
    destruct (loads_exist PRESET_LITERALS) as [profiles Hb].
    { pose proof PRESET_LITERALS_wf as Hwf.
      apply Forall_forall. intros [name l] Hl.
      eapply Forall_forall in Hwf; [|done]. simpl in *.
      apply build_preset_wf; [done|].
      apply Forall_forall. intros c Hc. by eapply Hacc. }
    exists profiles. unfold PRESETS.
    by rewrite (registry_loop_ok _ [] profiles PRESET_LITERALS_NoDup Hb).
  - intros d Hok%Hd.
    assert (d.*1 = PRESET_LITERALS.*1) as Hkeys.
    { clear -Hok. induction Hok as [|[k l] [k' p] ls ps [Hk _] _ IH]; [done|].
      rewrite !fmap_cons. simpl in Hk. cbn [fst]. by rewrite Hk, IH. }
    split_and!; [done..|]. rewrite Hkeys. apply PRESET_LITERALS_NoDup.
Qed.

End registry_facts.

Lemma PRESETS_loads_witness :
  ∃ d, PRESETS Symbolic.from_hex = Ok d.
Proof.
  apply (PRESETS_loads Symbolic.from_hex). intros name l c _ _. by eexists.
Defined.

(** ** What the launcher does not read *)

Section launcher_reads.
Context {Path : Type} (joinpath : Path → string → Path)
  (path_str : Path → string) (SRC : Path).
Implicit Types env : Env Path.

(** X21.  The Windows version is read on Windows only, and the macOS
    version on Darwin only: on any other platform [run_rust] does the same
    whatever these values are. *)
Theorem run_rust_reads env :
  (system env ≠ "Windows" →
     ∀ major, run_rust joinpath path_str SRC (with_windows_major env major)
              = run_rust joinpath path_str SRC env)
  ∧ (system env ≠ "Darwin" →
     ∀ version, run_rust joinpath path_str SRC (with_mac_ver env version)
                = run_rust joinpath path_str SRC env).
Proof.
  split.
  - intros Hs major. unfold run_rust, fallback_reason, rust_executable, warning.
    simpl. by rewrite (bool_decide_false (system env = "Windows")) by done.
  - intros Hs version. unfold run_rust, fallback_reason, rust_executable, warning.
    simpl. by rewrite (bool_decide_false (system env = "Darwin")) by done.
Qed.

End launcher_reads.

Lemma run_rust_reads_witness :
  run_rust Posix.joinpath Posix.path_str Posix.SRC
    (with_windows_major (Posix.env "Linux" "" 0 true) 6)
  = run_rust Posix.joinpath Posix.path_str Posix.SRC (Posix.env "Linux" "" 0 true)
  ∧ run_rust Posix.joinpath Posix.path_str Posix.SRC
      (with_mac_ver (Posix.env "Linux" "" 0 true) "10.9")
    = run_rust Posix.joinpath Posix.path_str Posix.SRC (Posix.env "Linux" "" 0 true).
Proof.
  destruct (run_rust_reads Posix.joinpath Posix.path_str Posix.SRC
              (Posix.env "Linux" "" 0 true)) as [Hwin Hmac].
  split; [apply Hwin | apply Hmac]; discriminate.
Defined.

(** ** [Config.from_dict] *)

Section dict_facts.
Context {K V : Type} `{EqDecision K}.
Implicit Types (d : dict K V).

Lemma dict_set_keys d k v v' :
  dict_get d k = Some v' → (dict_set d k v).*1 = d.*1.
Proof.
  induction d as [|[k0 v0] d IH]; cbn [dict_set dict_get]; [done|].
  case_decide as Hk; [by subst|]. intros Hd.
  rewrite !fmap_cons. f_equal. by apply IH.
Qed.

Lemma dict_get_set d k v : dict_get (dict_set d k v) k = Some v.
Proof.
  induction d as [|[k0 v0] d IH]; simpl.
  - by rewrite decide_True.
  - case_decide as Hk; simpl; [by rewrite decide_True|].
    by rewrite decide_False.
Qed.

Lemma dict_get_set_other d k k' v :
  k' ≠ k → dict_get (dict_set d k v) k' = dict_get d k'.
Proof.
  intros Hne. induction d as [|[k0 v0] d IH]; simpl.
  - by rewrite decide_False.
  - case_decide as Hk; simpl.
    + subst k0. by rewrite !decide_False.
    + case_decide; [done|apply IH].
Qed.

End dict_facts.

Section from_dict_facts.
Context {JSON ColorAlignment Exc : Type}
  (alignment_from_dict : dict_value JSON ColorAlignment → Exc + ColorAlignment)
  (generic_from_dict :
     dict string (dict_value JSON ColorAlignment) → Exc + Config ColorAlignment).
Implicit Types d : dict string (dict_value JSON ColorAlignment).

(** X22.  [Config.from_dict] raises [KeyError] on a dictionary without the
    key [color_align], and leaves that dictionary alone.  When the
    alignment is rebuilt, the caller's dictionary is changed in place: the
    key [color_align] now holds the alignment object, every other key
    holds what it held, and the keys keep their order; the generic decoder
    is given the changed dictionary.  A second call on the same dictionary
    therefore hands that object, not the parsed value, to
    [ColorAlignment.from_dict]. *)
Theorem Config_from_dict_in_place d :
  (dict_get d "color_align" = None →
     Config_from_dict alignment_from_dict generic_from_dict d
     = (d, inl (KeyError "color_align")))
  ∧ (∀ v a,
       dict_get d "color_align" = Some v → alignment_from_dict v = inr a →
       let d' := (Config_from_dict alignment_from_dict generic_from_dict d).1 in
       d'.*1 = d.*1
       ∧ dict_get d' "color_align" = Some (Aligned a)
       ∧ (∀ k, k ≠ "color_align" → dict_get d' k = dict_get d k)
       ∧ (Config_from_dict alignment_from_dict generic_from_dict d).2
         = match generic_from_dict d' with
           | inl e => inl (Collaborator e)
           | inr cfg => inr cfg
           end
       ∧ Config_from_dict alignment_from_dict generic_from_dict d'
         = match alignment_from_dict (Aligned a) with
           | inl e => (d', inl (Collaborator e))
           | inr a' =>
               let d'' := dict_set d' "color_align" (Aligned a') in
               (d'', match generic_from_dict d'' with
                     | inl e => inl (Collaborator e)
                     | inr cfg => inr cfg
                     end)
           end).
Proof.
  unfold Config_from_dict. split.
  - intros Hnone. by rewrite Hnone.
  - intros v a Hv Ha. rewrite Hv, Ha. cbn [fst snd]. split_and!.
    + by eapply dict_set_keys.
    + apply dict_get_set.
    + intros k Hk. by apply dict_get_set_other.
    + done.
    + by rewrite dict_get_set.
Qed.

End from_dict_facts.

Lemma Config_from_dict_in_place_witness :
  let d := [("preset", Parsed "rainbow"); ("color_align", Parsed "horizontal")] in
  let d' := (Config_from_dict
               (fun v : dict_value string nat =>
                  match v with
                  | Parsed _ => inr 0%nat
                  | Aligned _ => inl "not a dictionary"
                  end)
               (fun _ => inl "not decoded") d).1 in
  d'.*1 = ["preset"; "color_align"]
  ∧ dict_get d' "color_align" = Some (Aligned 0%nat).
Proof.
  intros d d'.
  destruct (Config_from_dict_in_place
              (fun v : dict_value string nat =>
                 match v with
                 | Parsed _ => inr 0%nat
                 | Aligned _ => inl "not a dictionary"
                 end)
              (fun _ => inl "not decoded") d) as [_ Hin].
  destruct (Hin (Parsed "horizontal") 0%nat ltac:(reflexivity) ltac:(reflexivity))
    as (Hkeys & Hget & _).
  split; [exact Hkeys | exact Hget].
Defined.
